(** * MarketTrendAnalysis: the flashcard scheduler, the quiz scorer and the
      content aggregator of the server's data layer

    The development embeds the Mongoose models [Content], [Flashcard] and
    [Quiz] and the three request handlers that drive them, and states the
    properties of the repository's specification against them.

    Conventions of the embedding.
    - A MongoDB collection is a finite map from [_id] to document
      ([gmap ObjectId _]); a query scans [map_to_list] of it.
    - A [Date] is its [getTime()] value, an integer number of milliseconds.
    - A JavaScript [Number] that the code only counts with is a [Z]; the ones
      it divides or multiplies by 1.5 are exact rationals [Q].  Rounding and
      overflow of binary64 arithmetic are outside the model.
    - Text is a sequence of Unicode code points.
    - Calls to [new Date()] take the clock reading as an argument [now]. *)

From Stdlib Require Import QArith Qround.
From stdpp Require Import gmap strings list fin_maps sorting.

Local Open Scope Z_scope.

Definition ObjectId := string.
Definition Date := Z.

(** Outcome of a request handler: the [data] of a success response, the
    HTTP status and [message] of a failure response, or an exception that
    [asyncHandler] hands to the error middleware. *)
Inductive Response (A : Type) : Type :=
| Ok (data : A)
| Err (status : Z) (message : string)
| Thrown (error : string).
Arguments Ok {A} data.
Arguments Err {A} status message.
Arguments Thrown {A} error.

(** ** Content model (models/Content) *)
Module Contents.

Definition codepoint := N.

Inductive ContentType := document | video | article | note.

Global Instance ContentType_eq_dec : EqDecision ContentType.
Proof. solve_decision. Defined.

Record Content := mkContent {
  userId : ObjectId;
  title : string;
  type : ContentType;
  source : string;
  content : list codepoint
}.

(** The code points of a text given as a string of one-byte characters. *)
Definition text (s : string) : list codepoint :=
  map Ascii.N_of_ascii (String.list_ascii_of_string s).

(** The class [\s] of a JavaScript regular expression. *)
Definition is_space (c : codepoint) : bool :=
  ((9 <=? c) && (c <=? 13) || (c =? 32) || (c =? 160) || (c =? 5760)
   || (8192 <=? c) && (c <=? 8202) || (c =? 8232) || (c =? 8233)
   || (c =? 8239) || (c =? 8287) || (c =? 12288) || (c =? 65279))%N.

(** [s.split(/\s+/)]: the pieces of [s] between maximal runs of white space,
    the empty pieces at either end included.  [cur] is the piece being read,
    reversed; [in_sep] says that the previous code point was white space. *)
Fixpoint split_go (in_sep : bool) (cur : list codepoint) (s : list codepoint)
  : list (list codepoint) :=
  match s with
  | [] => [rev cur]
  | c :: s' =>
      if is_space c then
        if in_sep then split_go true cur s'
        else rev cur :: split_go true [] s'
      else split_go false (c :: cur) s'
  end.

Definition split_ws (s : list codepoint) : list (list codepoint) :=
  split_go false [] s.

(** Virtual [contentLength]. *)
Definition contentLength (c : Content) : Z := Z.of_nat (length (content c)).

(** Virtual [wordCount]:
    [this.content.split(/\s+/).filter(word => word.length > 0).length]. *)
Definition wordCount (c : Content) : Z :=
  Z.of_nat (length (filter (fun word => (0 < length word)%nat) (split_ws (content c)))).

(** The aggregation operator [$strLenCP]: the number of code points. *)
Definition strLenCP (s : list codepoint) : Z := Z.of_nat (length s).

(** Accumulator of the [$group] stage of [getStats] (its [_id] is [null]). *)
Record GroupDoc := mkGroupDoc {
  g_totalContent : Z;
  g_totalWords : Z;
  g_byType : list ContentType
}.

(** One document enters the group: [$sum: 1], [$sum: {$strLenCP: '$content'}]
    and [$push: '$type'].  The group exists from its first document on. *)
Definition group_step (acc : option GroupDoc) (c : Content) : option GroupDoc :=
  match acc with
  | None => Some (mkGroupDoc 1 (strLenCP (content c)) [type c])
  | Some g => Some (mkGroupDoc (g_totalContent g + 1)
                               (g_totalWords g + strLenCP (content c))
                               (g_byType g ++ [type c]))
  end.

Definition group_stage (docs : list Content) : list GroupDoc :=
  option_list (foldl group_step None docs).

(** Result document of the [$project] stage. *)
Record StatsDoc := mkStatsDoc {
  totalContent : Z;
  totalWords : Z;
  documentCount : Z;
  videoCount : Z;
  articleCount : Z;
  noteCount : Z
}.

(** [{$size: {$filter: {input: '$byType', cond: {$eq: ['$$this', t]}}}}] *)
Definition countType (t : ContentType) (byType : list ContentType) : Z :=
  Z.of_nat (length (filter (fun this => this = t) byType)).

Definition project_stage (g : GroupDoc) : StatsDoc :=
  mkStatsDoc (g_totalContent g) (g_totalWords g)
             (countType document (g_byType g)) (countType video (g_byType g))
             (countType article (g_byType g)) (countType note (g_byType g)).

(** The [$match] stage: the documents of the user. *)
Definition match_stage (coll : gmap ObjectId Content) (uid : ObjectId) : list Content :=
  filter (fun c => userId c = uid) (map_to_list coll).*2.

(** Static [Content.getStats(userId)]: the array the pipeline resolves to. *)
Definition getStats (coll : gmap ObjectId Content) (uid : ObjectId) : list StatsDoc :=
  project_stage <$> group_stage (match_stage coll uid).

(** A JSON object whose values are numbers. *)
Definition toObject (d : StatsDoc) : gmap string Z :=
  <["totalContent" := totalContent d]>
  (<["totalWords" := totalWords d]>
  (<["documentCount" := documentCount d]>
  (<["videoCount" := videoCount d]>
  (<["articleCount" := articleCount d]>
  (<["noteCount" := noteCount d]> ∅))))).

(** Handler of [GET /api/content/stats]: [data.stats] is [stats[0] || {}]. *)
Definition statsRoute (coll : gmap ObjectId Content) (user : ObjectId)
  : Response (gmap string Z) :=
  let stats := getStats coll user in
  Ok (match head stats with
      | Some d => toObject d
      | None => ∅
      end).

(** Virtual [readingTime]: [Math.ceil(words / 200)]. *)
Definition readingTime (c : Content) : Z :=
  Qceiling (inject_Z (wordCount c) / 200).

End Contents.

(** ** Flashcard model (models/Flashcard) *)
Module Flashcards.

Inductive Difficulty := easy | medium | hard.

Inductive MasteryLevel := new | learning | proficient | mastered.

Global Instance Difficulty_eq_dec : EqDecision Difficulty.
Proof. solve_decision. Defined.

Global Instance MasteryLevel_eq_dec : EqDecision MasteryLevel.
Proof. solve_decision. Defined.

Record Flashcard := mkFlashcard {
  contentId : ObjectId;
  question : string;
  answer : string;
  difficulty : Difficulty;
  tags : list string;
  lastReviewed : option Date;
  reviewCount : Z;
  createdAt : Date;
  updatedAt : Date
}.

(** The object literal [difficultyMultiplier] of the [masteryLevel] getter. *)
Definition difficultyMultiplier (d : Difficulty) : Q :=
  match d with
  | easy => 1
  | medium => 3 # 2
  | hard => 2
  end.

(** Virtual [masteryLevel]. *)
Definition masteryLevel (this : Flashcard) : MasteryLevel :=
  let baseScore := (inject_Z (reviewCount this) * 10)%Q in
  let score := (baseScore * difficultyMultiplier (difficulty this))%Q in
  if Qle_bool 100 score then mastered
  else if Qle_bool 50 score then proficient
  else if Qle_bool 20 score then learning
  else new.

(** Instance method [markReviewed]: the two assignments, then [save()], which
    stamps [updatedAt] (schema option [timestamps]); the call is served at
    the one clock reading [now].  A stored document satisfies the validator
    [min: 0] of [reviewCount], and so does its successor: [save()] does not
    reject. *)
Definition markReviewed (now : Date) (this : Flashcard) : Flashcard :=
  {| contentId := contentId this;
     question := question this;
     answer := answer this;
     difficulty := difficulty this;
     tags := tags this;
     lastReviewed := Some now;
     reviewCount := reviewCount this + 1;
     createdAt := createdAt this;
     updatedAt := now |}.

(** The filter of [getForReview]:
    [{contentId, $or: [{lastReviewed: {$lt: oneDayAgo}}, {lastReviewed: null}]}]. *)
Definition reviewQuery (cid : ObjectId) (oneDayAgo : Date) (f : Flashcard) : Prop :=
  contentId f = cid ∧
  match lastReviewed f with
  | Some t => t < oneDayAgo
  | None => True
  end.

Global Instance reviewQuery_dec cid oneDayAgo f : Decision (reviewQuery cid oneDayAgo f).
Proof. unfold reviewQuery. destruct (lastReviewed f); apply _. Defined.

(** The order of [.sort({lastReviewed: 1, reviewCount: 1})]: ascending
    [lastReviewed], where [null] sorts before every date, then ascending
    [reviewCount]. *)
Definition reviewOrder (x y : ObjectId * Flashcard) : Prop :=
  match lastReviewed x.2, lastReviewed y.2 with
  | None, None => reviewCount x.2 ≤ reviewCount y.2
  | None, Some _ => True
  | Some _, None => False
  | Some s, Some t => s < t ∨ (s = t ∧ reviewCount x.2 ≤ reviewCount y.2)
  end.

Global Instance reviewOrder_dec x y : Decision (reviewOrder x y).
Proof.
  unfold reviewOrder.
  destruct (lastReviewed x.2), (lastReviewed y.2); apply _.
Defined.

(** [.limit(n)] of a query: the first [n] documents; MongoDB reads a limit
    of [0] as no limit. *)
Definition limit_ {A} (n : nat) (docs : list A) : list A :=
  match n with
  | O => docs
  | S _ => take n docs
  end.

(** Static [Flashcard.getForReview(contentId, limit = 20)]; an absent
    argument is [None].  The source computes [threeDaysAgo] and [weekAgo]
    and uses neither. *)
Definition getForReview (coll : gmap ObjectId Flashcard) (now : Date)
    (cid : ObjectId) (limit : option nat) : list (ObjectId * Flashcard) :=
  let limit := default 20%nat limit in
  let oneDayAgo := now - 24 * 60 * 60 * 1000 in
  let threeDaysAgo := now - 3 * 24 * 60 * 60 * 1000 in
  let weekAgo := now - 7 * 24 * 60 * 60 * 1000 in
  limit_ limit
    (merge_sort reviewOrder
       (filter (fun d => reviewQuery cid oneDayAgo d.2) (map_to_list coll))).

(** Virtual [daysSinceReview], read at the clock reading [now]. *)
Definition daysSinceReview (now : Date) (this : Flashcard) : option Z :=
  match lastReviewed this with
  | None => None
  | Some t =>
      let diffTime := Z.abs (now - t) in
      Some (Qceiling (inject_Z diffTime / inject_Z (1000 * 60 * 60 * 24)))
  end.

(** The [options] of [findByContent]; an absent property is [None]. *)
Record FindOptions := mkFindOptions {
  opt_difficulty : option Difficulty;
  opt_tags : option (list string);
  opt_limit : option nat
}.

(** The filter that [findByContent] builds: [contentId], the difficulty when
    one is given, and [{$in: tags}] on the tags when the array given is not
    empty. *)
Definition contentQuery (cid : ObjectId) (opt_d : option Difficulty)
    (opt_t : option (list string)) (f : Flashcard) : Prop :=
  contentId f = cid ∧
  match opt_d with
  | Some d => difficulty f = d
  | None => True
  end ∧
  match opt_t with
  | Some (t :: ts) => Exists (fun tag => tag ∈ t :: ts) (tags f)
  | _ => True
  end.

Global Instance contentQuery_dec cid opt_d opt_t f :
  Decision (contentQuery cid opt_d opt_t f).
Proof.
  unfold contentQuery. destruct opt_d; destruct opt_t as [[|? ?]|]; apply _.
Defined.

(** The order of [.sort({createdAt: -1})]: newest first. *)
Definition newestFirst (x y : ObjectId * Flashcard) : Prop :=
  createdAt y.2 ≤ createdAt x.2.

Global Instance newestFirst_dec x y : Decision (newestFirst x y).
Proof. unfold newestFirst. apply _. Defined.

(** Static [Flashcard.findByContent(contentId, options = {})]. *)
Definition findByContent (coll : gmap ObjectId Flashcard) (cid : ObjectId)
    (options : FindOptions) : list (ObjectId * Flashcard) :=
  let limit := default 50%nat (opt_limit options) in
  limit_ limit
    (merge_sort newestFirst
       (filter (fun d => contentQuery cid (opt_difficulty options) (opt_tags options) d.2)
          (map_to_list coll))).

(** Accumulator of the [$group] stage of [Flashcard.getStats]. *)
Record ReviewGroup := mkReviewGroup {
  g_total : Z;
  g_byDifficulty : list Difficulty;
  g_totalReviews : Z
}.

Definition group_step (acc : option ReviewGroup) (f : Flashcard) : option ReviewGroup :=
  match acc with
  | None => Some (mkReviewGroup 1 [difficulty f] (reviewCount f))
  | Some g => Some (mkReviewGroup (g_total g + 1) (g_byDifficulty g ++ [difficulty f])
                      (g_totalReviews g + reviewCount f))
  end.

(** Result document of [Flashcard.getStats]. *)
Record ReviewStats := mkReviewStats {
  total : Z;
  totalReviews : Z;
  easyCount : Z;
  mediumCount : Z;
  hardCount : Z
}.

Definition countDifficulty (d : Difficulty) (l : list Difficulty) : Z :=
  Z.of_nat (length (filter (fun this => this = d) l)).

Definition project_stage (g : ReviewGroup) : ReviewStats :=
  mkReviewStats (g_total g) (g_totalReviews g)
    (countDifficulty easy (g_byDifficulty g))
    (countDifficulty medium (g_byDifficulty g))
    (countDifficulty hard (g_byDifficulty g)).

(** Static [Flashcard.getStats(contentId)]. *)
Definition getStats (coll : gmap ObjectId Flashcard) (cid : ObjectId) : list ReviewStats :=
  project_stage <$>
    option_list (foldl group_step None
                   (filter (fun f => contentId f = cid) (map_to_list coll).*2)).

End Flashcards.

(** ** Quiz model (models/Quiz) *)
Module Quizzes.

(** A [Schema.Types.Mixed] answer: a string or an array of strings. *)
Inductive Mixed := Str (s : string) | Arr (l : list string).

Inductive QuestionType := multiple_choice | true_false | short_answer.

Record QuizAnswer := mkQuizAnswer {
  questionId : string;
  answer : Mixed;
  isCorrect : bool;
  answer_points : Q
}.

Record QuizQuestion := mkQuizQuestion {
  question_id : ObjectId;
  question : string;
  type : QuestionType;
  options : list string;
  correctAnswer : Mixed;
  explanation : string;
  points : Q
}.

Record QuizAttempt := mkQuizAttempt {
  attempt_id : ObjectId;
  userId : ObjectId;
  score : Z;
  answers : list QuizAnswer;
  completedAt : Date;
  timeSpent : Z
}.

Record Quiz := mkQuiz {
  contentId : ObjectId;
  title : string;
  description : string;
  questions : list QuizQuestion;
  timeLimit : option Z;
  passingScore : Z;
  attempts : list QuizAttempt;
  createdAt : Date;
  updatedAt : Date
}.

(** Virtual [totalPoints]:
    [this.questions.reduce((total, question) => total + question.points, 0)]. *)
Definition totalPoints (this : Quiz) : Q :=
  foldl (fun total question => (total + points question)%Q) 0%Q (questions this).

(** [Math.round]: the nearest integer, halves towards plus infinity. *)
Definition Math_round (x : Q) : Z := Qfloor (x + (1 # 2)).

(** Body of the [forEach] of [calculateScore], on the pair of the two local
    variables [(totalPoints, earnedPoints)]. *)
Definition score_step (answers : list QuizAnswer) (acc : Q * Q)
    (question : QuizQuestion) : Q * Q :=
  let totalPoints := (acc.1 + points question)%Q in
  let answer := List.find (fun a => String.eqb (questionId a) (question_id question)) answers in
  match answer with
  | Some a =>
      if isCorrect a then (totalPoints, (acc.2 + points question)%Q)
      else (totalPoints, acc.2)
  | None => (totalPoints, acc.2)
  end.

(** Instance method [calculateScore]. *)
Definition calculateScore (this : Quiz) (answers : list QuizAnswer) : Z :=
  let acc := foldl (score_step answers) (0%Q, 0%Q) (questions this) in
  let totalPoints := acc.1 in
  let earnedPoints := acc.2 in
  if Qlt_le_dec 0 totalPoints
  then Math_round ((earnedPoints / totalPoints) * 100)
  else 0.

(** The validators that [save()] runs on a pushed attempt: [min: 0] on
    [score], on [timeSpent] and on the [points] of each answer. *)
Definition validAttempt (a : QuizAttempt) : Prop :=
  0 ≤ score a ∧ 0 ≤ timeSpent a ∧ Forall (fun x => (0 <= answer_points x)%Q) (answers a).

Global Instance Qle_dec' (x y : Q) : Decision (x <= y)%Q.
Proof. destruct (Qlt_le_dec y x); [right; by apply Qlt_not_le | by left]. Defined.

Global Instance validAttempt_dec a : Decision (validAttempt a).
Proof. unfold validAttempt. apply _. Defined.

(** Instance method [addAttempt]: the attempt is pushed and the quiz saved;
    the [pre('save')] hook stamps [updatedAt].  [None] is the rejection of
    [save()] by a validator, which leaves the stored quiz as it was.
    [newId] is the fresh [ObjectId] and [now] the clock reading. *)
Definition addAttempt (newId : ObjectId) (now : Date) (this : Quiz)
    (userId : ObjectId) (answers : list QuizAnswer) (timeSpent : Z) : option Quiz :=
  let score := calculateScore this answers in
  let attempt := mkQuizAttempt newId userId score answers now timeSpent in
  if decide (validAttempt attempt) then
    Some {| contentId := contentId this;
            title := title this;
            description := description this;
            questions := questions this;
            timeLimit := timeLimit this;
            passingScore := passingScore this;
            attempts := attempts this ++ [attempt];
            createdAt := createdAt this;
            updatedAt := now |}
  else None.

(** Virtual [questionCount]. *)
Definition questionCount (this : Quiz) : Z := Z.of_nat (length (questions this)).

(** Virtual [averageScore]; [None] is [null]. *)
Definition averageScore (this : Quiz) : option Q :=
  if decide (length (attempts this) = 0%nat) then None
  else
    let totalScore := foldl (fun sum attempt => sum + score attempt) 0 (attempts this) in
    Some (inject_Z (Math_round
            (inject_Z totalScore / inject_Z (Z.of_nat (length (attempts this))) * 100))
          / 100)%Q.

(** Virtual [completionRate]. *)
Definition completionRate (this : Quiz) : Z :=
  if decide (length (attempts this) = 0%nat) then 0
  else
    let completedAttempts :=
      filter (fun attempt => passingScore this ≤ score attempt) (attempts this) in
    Math_round (inject_Z (Z.of_nat (length completedAttempts))
                / inject_Z (Z.of_nat (length (attempts this))) * 100).

(** Virtual [estimatedTime]. *)
Definition estimatedTime (this : Quiz) : Z := Z.of_nat (length (questions this)) * 2.

(** Result document of [Quiz.getStats].  [averageScore] is a virtual and no
    stored field, so [$avg: '$averageScore'] has no number to average:
    [avgScore] is [null]. *)
Record QuizStats := mkQuizStats {
  totalQuizzes : Z;
  totalAttempts : Z;
  totalQuestions : Z;
  avgScore : option Q
}.

Definition stats_step (acc : option QuizStats) (quiz : Quiz) : option QuizStats :=
  match acc with
  | None => Some (mkQuizStats 1 (Z.of_nat (length (attempts quiz)))
                    (Z.of_nat (length (questions quiz))) None)
  | Some g => Some (mkQuizStats (totalQuizzes g + 1)
                      (totalAttempts g + Z.of_nat (length (attempts quiz)))
                      (totalQuestions g + Z.of_nat (length (questions quiz))) None)
  end.

(** Static [Quiz.getStats(contentId)]. *)
Definition getStats (coll : gmap ObjectId Quiz) (cid : ObjectId) : list QuizStats :=
  option_list (foldl stats_step None
                 (filter (fun quiz => contentId quiz = cid) (map_to_list coll).*2)).

End Quizzes.

(** ** Request handlers (routes/ai) *)
Module Routes.

Record DB := mkDB {
  contents : gmap ObjectId Contents.Content;
  flashcards : gmap ObjectId Flashcards.Flashcard;
  quizzes : gmap ObjectId Quizzes.Quiz
}.

(** [Content.findOne({_id: id, userId: user})] *)
Definition findOwnedContent (db : DB) (id user : ObjectId) : option Contents.Content :=
  match contents db !! id with
  | Some c => if decide (Contents.userId c = user) then Some c else None
  | None => None
  end.

Record ReviewData := mkReviewData {
  rd_id : ObjectId;
  rd_reviewCount : Z;
  rd_lastReviewed : option Date;
  rd_masteryLevel : Flashcards.MasteryLevel
}.

(** Handler of [POST /api/ai/flashcards/:id/review] for the authenticated
    [user]. *)
Definition reviewRoute (now : Date) (db : DB) (user id : ObjectId)
  : DB * Response ReviewData :=
  match flashcards db !! id with
  | None => (db, Err 404 "Flashcard not found")
  | Some flashcard =>
      match findOwnedContent db (Flashcards.contentId flashcard) user with
      | None => (db, Err 403 "Access denied")
      | Some _ =>
          let flashcard := Flashcards.markReviewed now flashcard in
          (mkDB (contents db) (<[id := flashcard]> (flashcards db)) (quizzes db),
           Ok (mkReviewData id (Flashcards.reviewCount flashcard)
                 (Flashcards.lastReviewed flashcard)
                 (Flashcards.masteryLevel flashcard)))
      end
  end.

Record AttemptData := mkAttemptData {
  ad_score : Z;
  ad_totalAttempts : Z
}.

(** Handler of [POST /api/ai/quiz/:id/attempt] for the authenticated [user];
    the body holds an array [answers] and [timeSpent], which the validation
    chain requires to be an integer that is at least 0. *)
Definition attemptRoute (newId : ObjectId) (now : Date) (db : DB)
    (user id : ObjectId) (answers : list Quizzes.QuizAnswer) (timeSpent : Z)
  : DB * Response AttemptData :=
  if decide (timeSpent < 0) then (db, Err 400 "Validation failed")
  else
    match quizzes db !! id with
    | None => (db, Err 404 "Quiz not found")
    | Some quiz =>
        match findOwnedContent db (Quizzes.contentId quiz) user with
        | None => (db, Err 403 "Access denied")
        | Some _ =>
            match Quizzes.addAttempt newId now quiz user answers timeSpent with
            | None => (db, Thrown "ValidationError")
            | Some quiz =>
                (mkDB (contents db) (flashcards db) (<[id := quiz]> (quizzes db)),
                 Ok (mkAttemptData
                       (from_option Quizzes.score 0 (last (Quizzes.attempts quiz)))
                       (Z.of_nat (length (Quizzes.attempts quiz)))))
            end
        end
    end.

(** Handler of [GET /api/ai/flashcards/:contentId/review]; [limit] is the
    query parameter, a numeral when present, and 20 when absent. *)
Definition reviewListRoute (now : Date) (db : DB) (user contentId : ObjectId)
    (limit : option nat) : Response (list (ObjectId * Flashcards.Flashcard)) :=
  let limit := default 20%nat limit in
  match findOwnedContent db contentId user with
  | None => Err 404 "Content not found"
  | Some _ => Ok (Flashcards.getForReview (flashcards db) now contentId (Some limit))
  end.

(** Handler of [GET /api/ai/flashcards/:contentId]; [tags] is the query
    parameter split at the commas, when present and not empty. *)
Definition flashcardsRoute (db : DB) (user contentId : ObjectId)
    (difficulty : option Flashcards.Difficulty) (tags : option (list string))
    (limit : option nat) : Response (list (ObjectId * Flashcards.Flashcard)) :=
  let limit := default 50%nat limit in
  match findOwnedContent db contentId user with
  | None => Err 404 "Content not found"
  | Some _ =>
      Ok (Flashcards.findByContent (flashcards db) contentId
            (Flashcards.mkFindOptions difficulty tags (Some limit)))
  end.

(** The flashcards joined with their content ([$lookup]) and matched on
    ['content.userId']: those whose content is a document of the user. *)
Definition flashcardsOfUser (db : DB) (userId : ObjectId)
  : list (ObjectId * Flashcards.Flashcard) :=
  filter (fun d => is_Some (findOwnedContent db (Flashcards.contentId d.2) userId))
    (map_to_list (flashcards db)).

(** The [$or] of the dashboard's [$match]: last reviewed before [oneDayAgo],
    or never. *)
Definition dueQuery (oneDayAgo : Date) (f : Flashcards.Flashcard) : Prop :=
  match Flashcards.lastReviewed f with
  | Some t => t < oneDayAgo
  | None => True
  end.

Global Instance dueQuery_dec oneDayAgo f : Decision (dueQuery oneDayAgo f).
Proof. unfold dueQuery. destruct (Flashcards.lastReviewed f); apply _. Defined.

(** [reviewFlashcards.length] of the handler of [GET /api/user/dashboard]:
    the due cards of the user, cut by [$limit: 10], are counted. *)
Definition dashboardReviewFlashcards (now : Date) (db : DB) (userId : ObjectId) : Z :=
  Z.of_nat (length (take 10
    (filter (fun d => dueQuery (now - 24 * 60 * 60 * 1000) d.2)
       (flashcardsOfUser db userId)))).

Record LearningProgress := mkLearningProgress {
  totalFlashcards : Z;
  lp_totalReviews : Z;
  masteredCards : Z
}.

(** One card enters the group of the [learningProgress] pipeline; it counts
    as mastered when [reviewCount * 10] is at least 100. *)
Definition progress_step (acc : option LearningProgress)
    (d : ObjectId * Flashcards.Flashcard) : option LearningProgress :=
  let mastered := if decide (100 ≤ Flashcards.reviewCount d.2 * 10) then 1 else 0 in
  match acc with
  | None => Some (mkLearningProgress 1 (Flashcards.reviewCount d.2) mastered)
  | Some g => Some (mkLearningProgress (totalFlashcards g + 1)
                      (lp_totalReviews g + Flashcards.reviewCount d.2)
                      (masteredCards g + mastered))
  end.

(** [learningProgress] of the dashboard: [learningProgress[0]] or, for want
    of it, the object of three zeros. *)
Definition dashboardLearningProgress (db : DB) (userId : ObjectId) : LearningProgress :=
  default (mkLearningProgress 0 0 0)
    (foldl progress_step None (flashcardsOfUser db userId)).

End Routes.

(** ** Content service (services/contentService) *)
Module ContentService.
Import Contents.

(** [count(text)]: the expression
    [text.split(/\s+/).filter(word => word.length > 0).length] that the
    service repeats. *)
Definition countWords (s : list codepoint) : Z :=
  Z.of_nat (length (filter (fun word => (0 < length word)%nat) (split_ws s))).

(** [String.prototype.trim]: white space is dropped at both ends. *)
Fixpoint trimStart (s : list codepoint) : list codepoint :=
  match s with
  | [] => []
  | c :: s' => if is_space c then trimStart s' else s
  end.

Definition trim (s : list codepoint) : list codepoint :=
  rev (trimStart (rev (trimStart s))).

(** [.replace(/\s+/g, ' ')]: each maximal run of white space becomes one
    space; [in_run] says that the previous code point was white space. *)
Fixpoint replaceSpaceRuns (in_run : bool) (s : list codepoint) : list codepoint :=
  match s with
  | [] => []
  | c :: s' =>
      if is_space c then
        if in_run then replaceSpaceRuns true s' else 32%N :: replaceSpaceRuns true s'
      else c :: replaceSpaceRuns false s'
  end.

(** [.replace(/\n+/g, '\n')]: each maximal run of line feeds becomes one. *)
Fixpoint replaceNewlineRuns (in_run : bool) (s : list codepoint) : list codepoint :=
  match s with
  | [] => []
  | c :: s' =>
      if (c =? 10)%N then
        if in_run then replaceNewlineRuns true s' else 10%N :: replaceNewlineRuns true s'
      else c :: replaceNewlineRuns false s'
  end.

(** The class [\w]. *)
Definition is_word_char (c : codepoint) : bool :=
  ((48 <=? c) && (c <=? 57) || (65 <=? c) && (c <=? 90) || (c =? 95)
   || (97 <=? c) && (c <=? 122))%N.

(** The punctuation that the class of [cleanContent] lists, by code point:
    full stop, comma, exclamation and question mark, semicolon, colon, the
    three pairs of brackets, both quotes, backtick, tilde, at, number sign,
    dollar, percent, caret, ampersand, asterisk, plus, equals, bar,
    backslash, less than, greater than and slash.  The hyphen is not in
    it. *)
Definition is_kept_punctuation (c : codepoint) : bool :=
  bool_decide (c ∈ [46; 44; 33; 63; 59; 58; 40; 41; 91; 93; 123; 125; 34; 39;
                    96; 126; 64; 35; 36; 37; 94; 38; 42; 43; 61; 124; 92; 60;
                    62; 47]%N).

(** Method [cleanContent]. *)
Definition cleanContent (content : list codepoint) : list codepoint :=
  trim
    (filter (fun c => is_word_char c || is_space c || (c =? 10)%N
                      || is_kept_punctuation c)
       (replaceNewlineRuns false (replaceSpaceRuns false content))).

(** The step [Clean up content] of [processWebArticle]. *)
Definition cleanUpArticle (content : list codepoint) : list codepoint :=
  trim (replaceNewlineRuns false (replaceSpaceRuns false content)).

(** The tail of [processWebArticle]: the word count of the cleaned content
    and the reading time that is returned. *)
Definition articleReadingTime (content : list codepoint) : Z :=
  let wordCount := countWords content in
  Qceiling (inject_Z wordCount / 200).

(** Method [isValidFileType]. *)
Definition isValidFileType (mimeType : string) : bool :=
  let allowedTypes :=
    ["application/pdf";
     "application/vnd.openxmlformats-officedocument.wordprocessingml.document";
     "application/msword";
     "text/plain";
     "text/markdown"] in
  bool_decide (mimeType ∈ allowedTypes).

(** The [metadata] of a [ContentProcessingResult]. *)
Record Metadata := mkMetadata {
  md_title : option string;
  md_author : option string;
  md_pages : option Z;
  md_wordCount : option Z;
  md_readingTime : option Z
}.

Record ContentProcessingResult := mkResult {
  r_content : list codepoint;
  r_metadata : Metadata
}.

Definition emptyMetadata : Metadata := mkMetadata None None None None None.

Section processFile.

(** The readers of the three kinds of file are outside the model: each is a
    function of the path that yields the extracted text and what it found
    about the file, or [None] when it throws. *)
Variable pdf : string → option (list codepoint * option string * option string * Z).
Variable extractRawText : string → option (list codepoint).
Variable readFileSync : string → option (list codepoint).

(** Private method [processPDF]; [data.info?.Title || ''] and the like. *)
Definition processPDF (filePath : string) : option ContentProcessingResult :=
  match pdf filePath with
  | Some (text, title, author, numpages) =>
      Some (mkResult text
              (mkMetadata (Some (default "" title)) (Some (default "" author))
                 (Some numpages) (Some (countWords text)) None))
  | None => None
  end.

(** Private method [processWordDocument]. *)
Definition processWordDocument (filePath : string) : option ContentProcessingResult :=
  match extractRawText filePath with
  | Some value => Some (mkResult value (mkMetadata None None None (Some (countWords value)) None))
  | None => None
  end.

(** Private method [processTextFile]. *)
Definition processTextFile (filePath : string) : option (list codepoint) :=
  readFileSync filePath.

(** Method [processFile]: every exception of the [try] block is replaced
    by the error [Failed to process file]. *)
Definition processFile (filePath mimeType : string) : string + ContentProcessingResult :=
  let extracted : option (list codepoint * Metadata) :=
    if decide (mimeType = "application/pdf") then
      result ← processPDF filePath; Some (r_content result, r_metadata result)
    else if decide (mimeType =
                "application/vnd.openxmlformats-officedocument.wordprocessingml.document"
              ∨ mimeType = "application/msword") then
      docResult ← processWordDocument filePath;
      Some (r_content docResult, r_metadata docResult)
    else if decide (mimeType = "text/plain" ∨ mimeType = "text/markdown") then
      content ← processTextFile filePath; Some (content, emptyMetadata)
    else None in
  match extracted with
  | Some (content, metadata) =>
      inr (mkResult (trim content)
             (mkMetadata (md_title metadata) (md_author metadata) (md_pages metadata)
                (Some (countWords content))
                (Some (Qceiling (inject_Z (countWords content) / 200)))))
  | None => inl "Failed to process file"
  end.

End processFile.

(** *** Extracting concepts *)

(** [Array.prototype.sort] with a comparator that orders by a number: the
    sort is stable.  [sortOn key] sorts by ascending [key]; an element
    goes before the elements that it does not come after. *)
Fixpoint insertOn {A} (key : A → Z) (x : A) (l : list A) : list A :=
  match l with
  | [] => [x]
  | y :: l' => if decide (key y < key x) then y :: insertOn key x l' else x :: l
  end.

Definition sortOn {A} (key : A → Z) (l : list A) : list A :=
  foldr (insertOn key) [] l.

(** The own properties of an object that is used as a dictionary of
    numbers, in the order of their creation. *)
Definition Dictionary := list (list codepoint * Z).

(** [wordFreq[word] = (wordFreq[word] || 0) + 1], for a [word] that
    [Object.prototype] does not define. *)
Fixpoint increment (word : list codepoint) (wordFreq : Dictionary) : Dictionary :=
  match wordFreq with
  | [] => [(word, 1)]
  | (k, n) :: rest =>
      if decide (k = word) then (k, n + 1) :: rest
      else (k, n) :: increment word rest
  end.

Fixpoint parseDigits (acc : N) (s : list codepoint) : option N :=
  match s with
  | [] => Some acc
  | c :: s' =>
      if ((48 <=? c) && (c <=? 57))%N then parseDigits (10 * acc + (c - 48)) s'
      else None
  end.

(** The array index that a property key denotes, if any: a canonical
    numeral below [2^32 - 1]. *)
Definition arrayIndex (key : list codepoint) : option N :=
  match key with
  | [] => None
  | c :: rest =>
      if ((c =? 48)%N && negb (bool_decide (rest = []))) then None
      else match parseDigits 0 key with
           | Some n => if (n <? 4294967295)%N then Some n else None
           | None => None
           end
  end.

(** [Object.entries]: the array indices in ascending order, then the other
    keys in the order of their creation. *)
Definition entries (o : Dictionary) : Dictionary :=
  sortOn (fun e => Z.of_N (default 0%N (arrayIndex e.1)))
    (filter (fun e => is_Some (arrayIndex e.1)) o)
  ++ filter (fun e => ¬ is_Some (arrayIndex e.1)) o.

(** The names that [Object.prototype] defines.  For such a word
    [wordFreq[word]] is not [undefined] before the first assignment. *)
Definition prototypeKeys : list (list codepoint) :=
  text <$> ["constructor"; "__defineGetter__"; "__defineSetter__"; "hasOwnProperty";
            "__lookupGetter__"; "__lookupSetter__"; "isPrototypeOf";
            "propertyIsEnumerable"; "toString"; "valueOf"; "__proto__";
            "toLocaleString"].

Section extractConcepts.

(** [String.prototype.toLowerCase] maps all of Unicode and is outside the
    model. *)
Variable toLowerCase : list codepoint → list codepoint.

(** The constant [words] of [extractConcepts]. *)
Definition conceptWords (content : list codepoint) : list (list codepoint) :=
  filter (fun word => (3 < length word)%nat)
    (split_ws (filter (fun c => is_word_char c || is_space c) (toLowerCase content))).

(** Method [extractConcepts].  The assignment to [__proto__] creates no
    property.  For another word that [Object.prototype] defines the value
    stored is a string and the comparator yields [NaN]; the order of the
    result is then not determined: [None]. *)
Definition extractConcepts (content : list codepoint) : option (list (list codepoint)) :=
  let words := conceptWords content in
  let stored := filter (fun word => word ≠ text "__proto__") words in
  if decide (Exists (fun word => word ∈ prototypeKeys) stored) then None
  else
    let wordFreq := foldl (fun o word => increment word o) [] stored in
    Some (take 10 (sortOn (fun e => - e.2) (entries wordFreq))).*1.

End extractConcepts.

End ContentService.

(** ** Sample data *)
Module Samples.

(** One note of user [u1], of two words and eleven code points. *)
Definition helloNote : Contents.Content :=
  Contents.mkContent "u1" "Greeting" Contents.note "upload" (Contents.text "hello world").

Definition oneNote : gmap ObjectId Contents.Content := {[ "c1" := helloNote ]}.

(** Two cards of content [c1] that were never reviewed. *)
Definition freshCard (q : string) : Flashcards.Flashcard :=
  Flashcards.mkFlashcard "c1" q "answer" Flashcards.medium [] None 0 1000 1000.

Definition twoFreshCards : gmap ObjectId Flashcards.Flashcard :=
  {[ "f1" := freshCard "first"; "f2" := freshCard "second" ]}.

(** Cards of content [c1]: never reviewed, reviewed two days and one hour
    before the clock reading [sampleNow]; and a never reviewed card of
    content [c2]. *)
Definition sampleNow : Date := 1000000000.

Definition mixedCards : gmap ObjectId Flashcards.Flashcard :=
  {[ "f1" := freshCard "first";
     "f2" := Flashcards.mkFlashcard "c1" "second" "answer" Flashcards.hard []
               (Some (sampleNow - 2 * 86400000)) 3 1000 2000;
     "f3" := Flashcards.mkFlashcard "c1" "third" "answer" Flashcards.easy []
               (Some (sampleNow - 3600000)) 1 1000 3000;
     "f4" := Flashcards.mkFlashcard "c2" "fourth" "answer" Flashcards.easy []
               None 0 1000 1000 ]}.

(** A quiz of content [c1] with questions worth 1 and 3 points, and a
    submission that is right on the second question only. *)
Definition question1 : Quizzes.QuizQuestion :=
  Quizzes.mkQuizQuestion "q1" "2 + 2 = 4" Quizzes.true_false ["true"; "false"]
    (Quizzes.Str "true") "" 1.

Definition question2 : Quizzes.QuizQuestion :=
  Quizzes.mkQuizQuestion "q2" "Capital of France" Quizzes.short_answer []
    (Quizzes.Str "Paris") "" 3.

Definition quiz13 : Quizzes.Quiz :=
  Quizzes.mkQuiz "c1" "Sample" "" [question1; question2] None 70 [] 1000 1000.

Definition wrong1 : Quizzes.QuizAnswer :=
  Quizzes.mkQuizAnswer "q1" (Quizzes.Str "false") false 0.

Definition right2 : Quizzes.QuizAnswer :=
  Quizzes.mkQuizAnswer "q2" (Quizzes.Str "Paris") true 3.



(** A store: the note of user [u1] as content [c1], its cards and its
    quiz. *)
Definition sampleDB : Routes.DB :=
  Routes.mkDB {[ "c1" := helloNote ]} mixedCards {[ "z1" := quiz13 ]}.

(** Lower case on the Latin letters of ASCII. *)
Definition asciiLower (s : list Contents.codepoint) : list Contents.codepoint :=
  (fun c => if ((65 <=? c) && (c <=? 90))%N then (c + 32)%N else c) <$> s.

End Samples.

(** ** Notions of the specification *)
Module Spec.

(** The sum of the word counts of a list of documents. *)
Definition sumWordCount (docs : list Contents.Content) : Z :=
  foldr (fun c acc => Contents.wordCount c + acc) 0 docs.


(** The order [new < learning < proficient < mastered] of the bands. *)
Definition masteryRank (m : Flashcards.MasteryLevel) : Z :=
  match m with
  | Flashcards.new => 0
  | Flashcards.learning => 1
  | Flashcards.proficient => 2
  | Flashcards.mastered => 3
  end.

(** Twice the difficulty multiplier, an integer. *)
Definition twiceMultiplier (d : Flashcards.Difficulty) : Z :=
  match d with
  | Flashcards.easy => 2
  | Flashcards.medium => 3
  | Flashcards.hard => 4
  end.

(** The score of the mastery classification, as the specification has it. *)
Definition masteryScore (reviewCount : Z) (d : Flashcards.Difficulty) : Q :=
  (inject_Z reviewCount * 10 *
   match d with
   | Flashcards.easy => 1
   | Flashcards.medium => 15 # 10
   | Flashcards.hard => 2
   end)%Q.

(** The cards of a content item that were never reviewed. *)
Definition neverReviewed (coll : gmap ObjectId Flashcards.Flashcard)
    (cid : ObjectId) : list (ObjectId * Flashcards.Flashcard) :=
  filter (fun d => Flashcards.contentId d.2 = cid ∧ Flashcards.lastReviewed d.2 = None)
    (map_to_list coll).

(** A card is due at [now]: never reviewed, or last reviewed more than 24
    hours before. *)
Definition due (now : Date) (f : Flashcards.Flashcard) : Prop :=
  Flashcards.lastReviewed f = None ∨
  ∃ t, Flashcards.lastReviewed f = Some t ∧ t < now - 86400000.

(** The submitted answer that is looked up for a question: the first one
    that carries the identifier of the question. *)
Definition matchingAnswer (answers : list Quizzes.QuizAnswer)
    (question : Quizzes.QuizQuestion) : option Quizzes.QuizAnswer :=
  List.find (fun a => String.eqb (Quizzes.questionId a) (Quizzes.question_id question))
    answers.

(** The question is awarded: its matching answer is present and flagged
    correct. *)
Definition awarded (answers : list Quizzes.QuizAnswer)
    (question : Quizzes.QuizQuestion) : Prop :=
  ∃ a, matchingAnswer answers question = Some a ∧ Quizzes.isCorrect a = true.

Global Instance awarded_dec answers question : Decision (awarded answers question).
Proof.
  unfold awarded. destruct (matchingAnswer answers question) as [a|].
  - destruct (Quizzes.isCorrect a) eqn:E.
    + left. by exists a.
    + right. intros (? & [= <-] & ?). congruence.
  - right. by intros (? & ? & ?).
Defined.

Definition sumQ (l : list Q) : Q := foldr Qplus 0%Q l.

(** The earned points: the weights of the awarded questions, each once. *)
Definition earnedPoints (quiz : Quizzes.Quiz) (answers : list Quizzes.QuizAnswer) : Q :=
  sumQ (Quizzes.points <$> filter (awarded answers) (Quizzes.questions quiz)).


(** The point weights of the questions are not negative (the schema has
    [min: 1]). *)
Definition nonnegPoints (quiz : Quizzes.Quiz) : Prop :=
  Forall (fun question => (0 <= Quizzes.points question)%Q) (Quizzes.questions quiz).

(** The quiz with its questions replaced.  No handler of the repository
    does this; it stands for any later change of the questions of a quiz. *)
Definition replaceQuestions (questions : list Quizzes.QuizQuestion)
    (quiz : Quizzes.Quiz) : Quizzes.Quiz :=
  {| Quizzes.contentId := Quizzes.contentId quiz;
     Quizzes.title := Quizzes.title quiz;
     Quizzes.description := Quizzes.description quiz;
     Quizzes.questions := questions;
     Quizzes.timeLimit := Quizzes.timeLimit quiz;
     Quizzes.passingScore := Quizzes.passingScore quiz;
     Quizzes.attempts := Quizzes.attempts quiz;
     Quizzes.createdAt := Quizzes.createdAt quiz;
     Quizzes.updatedAt := Quizzes.updatedAt quiz |}.

(** What happens to the store over time: attempts are submitted, cards are
    reviewed, and the questions of a quiz are changed. *)
Inductive Event :=
| Attempt (newId : ObjectId) (now : Date) (user id : ObjectId)
    (answers : list Quizzes.QuizAnswer) (timeSpent : Z)
| Review (now : Date) (user id : ObjectId)
| EditQuestions (id : ObjectId) (questions : list Quizzes.QuizQuestion).

Definition step (db : Routes.DB) (e : Event) : Routes.DB :=
  match e with
  | Attempt newId now user id answers timeSpent =>
      (Routes.attemptRoute newId now db user id answers timeSpent).1
  | Review now user id => (Routes.reviewRoute now db user id).1
  | EditQuestions id questions =>
      Routes.mkDB (Routes.contents db) (Routes.flashcards db)
        (alter (replaceQuestions questions) id (Routes.quizzes db))
  end.

Definition run (db : Routes.DB) (events : list Event) : Routes.DB :=
  foldl step db events.

(** The number of positions at which a word starts: a code point that is
    not white space and follows white space or nothing.  [in_word] says
    that the previous code point was not white space. *)
Fixpoint wordStarts (in_word : bool) (s : list Contents.codepoint) : nat :=
  match s with
  | [] => 0
  | c :: s' =>
      if Contents.is_space c then wordStarts false s'
      else ((if in_word then 0 else 1) + wordStarts true s')%nat
  end.

(** The sum of the lengths of the texts of a list of documents. *)
Definition sumContentLength (docs : list Contents.Content) : Z :=
  foldr (fun c acc => Contents.contentLength c + acc) 0 docs.

(** The sum of the review counts of a list of cards. *)
Definition sumReviewCount (cards : list Flashcards.Flashcard) : Z :=
  foldr (fun f acc => Flashcards.reviewCount f + acc) 0 cards.

(** The cards of a content item. *)
Definition cardsOf (coll : gmap ObjectId Flashcards.Flashcard) (cid : ObjectId)
  : list Flashcards.Flashcard :=
  filter (fun f => Flashcards.contentId f = cid) (map_to_list coll).*2.

(** The statistics with one more review. *)
Definition oneMoreReview (s : Flashcards.ReviewStats) : Flashcards.ReviewStats :=
  Flashcards.mkReviewStats (Flashcards.total s) (Flashcards.totalReviews s + 1)
    (Flashcards.easyCount s) (Flashcards.mediumCount s) (Flashcards.hardCount s).

(** The least review counts of the bands learning, proficient and mastered
    at a difficulty. *)
Definition bandThresholds (d : Flashcards.Difficulty) : Z * Z * Z :=
  match d with
  | Flashcards.easy => (2, 5, 10)
  | Flashcards.medium => (2, 4, 7)
  | Flashcards.hard => (1, 3, 5)
  end.

(** The quizzes of a content item. *)
Definition quizzesOf (coll : gmap ObjectId Quizzes.Quiz) (cid : ObjectId)
  : list Quizzes.Quiz :=
  filter (fun quiz => Quizzes.contentId quiz = cid) (map_to_list coll).*2.

Definition sumAttempts (l : list Quizzes.Quiz) : Z :=
  foldr (fun quiz acc => Z.of_nat (length (Quizzes.attempts quiz)) + acc) 0 l.

Definition sumQuestions (l : list Quizzes.Quiz) : Z :=
  foldr (fun quiz acc => Z.of_nat (length (Quizzes.questions quiz)) + acc) 0 l.

(** The statistics with one more attempt. *)
Definition oneMoreAttempt (s : Quizzes.QuizStats) : Quizzes.QuizStats :=
  Quizzes.mkQuizStats (Quizzes.totalQuizzes s) (Quizzes.totalAttempts s + 1)
    (Quizzes.totalQuestions s) (Quizzes.avgScore s).

(** The caller owns the content item. *)
Definition owns (db : Routes.DB) (user cid : ObjectId) : Prop :=
  ∃ c, Routes.contents db !! cid = Some c ∧ Contents.userId c = user.

(** The number of cards of a list that [P] holds of. *)
Definition countCards (P : Flashcards.Flashcard → Prop) `{!∀ f, Decision (P f)}
    (cards : list (ObjectId * Flashcards.Flashcard)) : Z :=
  Z.of_nat (length (filter (fun d => P d.2) cards)).

(** The words of a text: the pieces of [split(/\s+/)] that are not empty. *)
Definition words (s : list Contents.codepoint) : list (list Contents.codepoint) :=
  filter (fun word => (0 < length word)%nat) (Contents.split_ws s).

(** The words of a text, read from left to right; [cur] is the word being
    read, reversed. *)
Fixpoint wordsFrom (cur : list Contents.codepoint) (s : list Contents.codepoint)
  : list (list Contents.codepoint) :=
  match s with
  | [] => match cur with [] => [] | _ => [rev cur] end
  | c :: s' =>
      if Contents.is_space c then
        match cur with
        | [] => wordsFrom [] s'
        | _ => rev cur :: wordsFrom [] s'
        end
      else wordsFrom (c :: cur) s'
  end.

(** [ws.join(' ')]. *)
Fixpoint joinWords (ws : list (list Contents.codepoint)) : list Contents.codepoint :=
  match ws with
  | [] => []
  | [w] => w
  | w :: ws' => w ++ 32%N :: joinWords ws'
  end.

(** White space dropped at the end of a text. *)
Definition trimEnd (s : list Contents.codepoint) : list Contents.codepoint :=
  foldr (fun c acc => match acc with
                      | [] => if Contents.is_space c then [] else [c]
                      | _ => c :: acc
                      end) [] s.

(** A text that does not begin with white space. *)
Definition startsClean (s : list Contents.codepoint) : Prop :=
  match s with
  | [] => True
  | c :: _ => Contents.is_space c = false
  end.

(** How often a word occurs in a list of words. *)
Definition occurrences (w : list Contents.codepoint)
    (ws : list (list Contents.codepoint)) : Z :=
  Z.of_nat (length (filter (fun x => x = w) ws)).

(** The number stored under a key of a dictionary, 0 for a missing key. *)
Fixpoint get (o : ContentService.Dictionary) (k : list Contents.codepoint) : Z :=
  match o with
  | [] => 0
  | (k', n) :: rest => if decide (k' = k) then n else get rest k
  end.

End Spec.

(** ** Facts about lists and rationals *)
Module Facts.

Lemma Qle_bool_false x y : Qle_bool x y = false ↔ (y < x)%Q.
Proof.
  rewrite <- not_true_iff_false, Qle_bool_iff. split.
  - apply Qnot_le_lt.
  - apply Qlt_not_le.
Qed.

Lemma Qlt_iff_not_le (x y : Q) : (x < y)%Q ↔ ¬ (y <= x)%Q.
Proof. split; [apply Qlt_not_le | apply Qnot_le_lt]. Qed.

Lemma filter_Forall_id {A} (P : A → Prop) `{!∀ x, Decision (P x)} (l : list A) :
  Forall P l → filter P l = l.
Proof.
  induction 1 as [|x l Hx _ IH]; [done|].
  by rewrite filter_cons_True, IH.
Qed.

(** In a list whose elements up to [x] all satisfy [P], the position of [x]
    is below the number of elements that satisfy [P]. *)
Lemma length_prefix_filter {A} (P : A → Prop) `{!∀ x, Decision (P x)}
    (l1 l2 : list A) (x : A) :
  Forall P l1 → P x → (length l1 < length (filter P (l1 ++ x :: l2)))%nat.
Proof.
  intros H1 Hx. rewrite filter_app, filter_cons_True by done.
  rewrite (filter_Forall_id P l1 H1), length_app. simpl. lia.
Qed.

Lemma length_filter_filter {A} (P Q : A → Prop)
    `{!∀ x, Decision (P x), !∀ x, Decision (Q x)} (l : list A) :
  (length (filter P (filter Q l)) ≤ length (filter P l))%nat.
Proof.
  induction l as [|x l IH]; [done|].
  rewrite (filter_cons Q). destruct (decide (Q x)).
  - rewrite !(filter_cons P). destruct (decide (P x)); simpl; lia.
  - rewrite (filter_cons P). destruct (decide (P x)); simpl; lia.
Qed.


End Facts.

(** ** Properties of the content aggregator *)
Module ContentsProps.
Import Contents Spec.

Lemma foldl_group_step_Some g docs :
  foldl group_step (Some g) docs =
  Some (mkGroupDoc (g_totalContent g + Z.of_nat (length docs))
          (g_totalWords g + foldr (fun c acc => strLenCP (content c) + acc) 0 docs)
          (g_byType g ++ (type <$> docs))).
Proof.
  revert g. induction docs as [|c docs IH]; intros [n w ts]; simpl.
  - by rewrite !Z.add_0_r, app_nil_r.
  - rewrite IH. simpl. do 2 f_equal; [lia | lia | by rewrite <- app_assoc].
Qed.


(** With at least one document there is one result; its [totalWords] is the
    number of code points of the stored texts. *)
Lemma getStats_some_content coll uid c docs :
  match_stage coll uid = c :: docs →
  ∃ d, getStats coll uid = [d] ∧
       totalContent d = Z.of_nat (length (c :: docs)) ∧
       totalWords d = foldr (fun c acc => contentLength c + acc) 0 (c :: docs).
Proof.
  intros Hm. unfold getStats, group_stage. rewrite Hm. simpl.
  rewrite foldl_group_step_Some. simpl. eexists. split; [reflexivity|].
  simpl. split; [lia|]. unfold contentLength, strLenCP.
  generalize (foldr (fun c acc => Z.of_nat (length (content c)) + acc) 0 docs). lia.
Qed.


(** C1, at the user [u1] whose only content is the text [hello world]:
    [getStats] reports [totalWords] 11, the number of code points, where the
    word count of the text is 2. *)
Theorem getStats_totalWords_is_text_length :
  match_stage Samples.oneNote "u1" = [Samples.helloNote] ∧
  sumWordCount (match_stage Samples.oneNote "u1") = 2 ∧
  totalWords <$> getStats Samples.oneNote "u1" = [11] ∧
  statsRoute Samples.oneNote "u1" = Ok (toObject (mkStatsDoc 1 11 0 0 0 1)).
Proof. by vm_compute. Qed.




End ContentsProps.

(** ** Properties of the flashcard scheduler *)
Module FlashcardsProps.
Import Flashcards Spec Facts.

Lemma score_Qle (n : Z) (d : Difficulty) (rc : Z) :
  (inject_Z n <= inject_Z rc * 10 * difficultyMultiplier d)%Q ↔
  2 * n ≤ rc * 10 * twiceMultiplier d.
Proof. destruct d; unfold Qle; simpl; lia. Qed.

Lemma masteryLevel_Z (f : Flashcard) :
  masteryLevel f =
  let s2 := reviewCount f * 10 * twiceMultiplier (difficulty f) in
  if decide (200 ≤ s2) then mastered
  else if decide (100 ≤ s2) then proficient
  else if decide (40 ≤ s2) then learning
  else new.
Proof.
  unfold masteryLevel. cbv zeta.
  pose proof (score_Qle 100 (difficulty f) (reviewCount f)) as H100.
  pose proof (score_Qle 50 (difficulty f) (reviewCount f)) as H50.
  pose proof (score_Qle 20 (difficulty f) (reviewCount f)) as H20.
  change (inject_Z 100) with 100%Q in H100.
  change (inject_Z 50) with 50%Q in H50.
  change (inject_Z 20) with 20%Q in H20.
  repeat case_decide;
    repeat match goal with
    | |- context [Qle_bool ?a ?b] =>
        let E := fresh in destruct (Qle_bool a b) eqn:E;
        [apply Qle_bool_iff in E | apply Qle_bool_false in E; apply Qlt_not_le in E]
    end; try done; tauto || lia.
Qed.

Lemma masteryScore_Qle (n rc : Z) (d : Difficulty) :
  (inject_Z n <= masteryScore rc d)%Q ↔ 2 * n ≤ rc * 10 * twiceMultiplier d.
Proof. destruct d; unfold masteryScore, Qle; simpl; lia. Qed.

(** C8: the mastery level is the band of the score
    [reviewCount * 10 * multiplier], the multiplier being 1, 1.5 or 2 for
    easy, medium or hard: mastered from 100 on, proficient from 50 on,
    learning from 20 on, new below; a hard card reviewed 5 times is mastered
    and an easy card reviewed 5 times is proficient. *)
Theorem masteryLevel_bands (f : Flashcard) :
  let score := masteryScore (reviewCount f) (difficulty f) in
  (masteryLevel f = mastered ↔ (100 <= score)%Q) ∧
  (masteryLevel f = proficient ↔ (50 <= score)%Q ∧ (score < 100)%Q) ∧
  (masteryLevel f = learning ↔ (20 <= score)%Q ∧ (score < 50)%Q) ∧
  (masteryLevel f = new ↔ (score < 20)%Q) ∧
  (difficulty f = hard → reviewCount f = 5 → masteryLevel f = mastered) ∧
  (difficulty f = easy → reviewCount f = 5 → masteryLevel f = proficient).
Proof.
  cbv zeta. rewrite masteryLevel_Z. cbv zeta.
  pose proof (masteryScore_Qle 100 (reviewCount f) (difficulty f)) as H100.
  pose proof (masteryScore_Qle 50 (reviewCount f) (difficulty f)) as H50.
  pose proof (masteryScore_Qle 20 (reviewCount f) (difficulty f)) as H20.
  change (inject_Z 100) with 100%Q in H100.
  change (inject_Z 50) with 50%Q in H50.
  change (inject_Z 20) with 20%Q in H20.
  rewrite !Qlt_iff_not_le, H100, H50, H20.
  repeat split; try (repeat case_decide; (done || lia)).
  - intros -> ->. simpl. by repeat case_decide.
  - intros -> ->. simpl. by repeat case_decide.
Qed.

Lemma masteryLevel_bands_witness :
  masteryLevel (mkFlashcard "c1" "q" "a" hard [] None 5 0 0) = mastered ∧
  masteryLevel (mkFlashcard "c1" "q" "a" easy [] None 5 0 0) = proficient.
Proof.
  split.
  - apply (masteryLevel_bands (mkFlashcard "c1" "q" "a" hard [] None 5 0 0));
      reflexivity.
  - apply (masteryLevel_bands (mkFlashcard "c1" "q" "a" easy [] None 5 0 0));
      reflexivity.
Defined.

(** C9: at a fixed difficulty the band does not decrease when the review
    count grows. *)
Theorem masteryLevel_monotone (f g : Flashcard) :
  difficulty f = difficulty g →
  reviewCount f ≤ reviewCount g →
  masteryRank (masteryLevel f) ≤ masteryRank (masteryLevel g).
Proof.
  intros Hd Hle. rewrite !masteryLevel_Z. cbv zeta. rewrite <- Hd.
  assert (0 < twiceMultiplier (difficulty f)) by (by destruct (difficulty f)).
  repeat case_decide; simpl; nia.
Qed.

Lemma masteryLevel_monotone_witness :
  masteryRank (masteryLevel (mkFlashcard "c1" "q" "a" medium [] None 3 0 0)) ≤
  masteryRank (masteryLevel (mkFlashcard "c1" "q" "a" medium [] (Some 5) 7 0 9)).
Proof.
  apply (masteryLevel_monotone
           (mkFlashcard "c1" "q" "a" medium [] None 3 0 0)
           (mkFlashcard "c1" "q" "a" medium [] (Some 5) 7 0 9)).
  - reflexivity.
  - simpl. lia.
Defined.

(** *** The review order *)

Global Instance reviewOrder_total : Total reviewOrder.
Proof.
  intros x y. unfold reviewOrder.
  destruct (lastReviewed x.2), (lastReviewed y.2); lia || tauto.
Qed.

Global Instance reviewOrder_transitive : Transitive reviewOrder.
Proof.
  intros x y z. unfold reviewOrder.
  destruct (lastReviewed x.2), (lastReviewed y.2), (lastReviewed z.2); lia || tauto.
Qed.

(** Only a never reviewed card sorts before a never reviewed card. *)
Lemma reviewOrder_null_r x y :
  reviewOrder x y → lastReviewed y.2 = None → lastReviewed x.2 = None.
Proof.
  unfold reviewOrder. intros H Hy. rewrite Hy in H.
  by destruct (lastReviewed x.2).
Qed.

Lemma reviewQuery_spec cid now f :
  reviewQuery cid (now - 24 * 60 * 60 * 1000) f ↔ contentId f = cid ∧ due now f.
Proof.
  unfold reviewQuery, due. change (24 * 60 * 60 * 1000) with 86400000.
  destruct (lastReviewed f) as [t|]; split; intros [? H]; split; try done.
  - right. by exists t.
  - by destruct H as [|(? & [= <-] & ?)].
  - by left.
Qed.

(** The documents that the query of [getForReview] selects, sorted. *)
Lemma getForReview_unfold coll now cid limit :
  getForReview coll now cid limit =
  limit_ (default 20%nat limit)
    (merge_sort reviewOrder
       (filter (fun d => reviewQuery cid (now - 24 * 60 * 60 * 1000) d.2)
          (map_to_list coll))).
Proof. reflexivity. Qed.

Lemma elem_of_selected coll now cid (d : ObjectId * Flashcard) :
  d ∈ merge_sort reviewOrder
        (filter (fun d => reviewQuery cid (now - 24 * 60 * 60 * 1000) d.2)
           (map_to_list coll)) ↔
  coll !! d.1 = Some d.2 ∧ contentId d.2 = cid ∧ due now d.2.
Proof.
  rewrite merge_sort_Permutation, list_elem_of_filter, reviewQuery_spec.
  destruct d as [id f]. rewrite elem_of_map_to_list. simpl. tauto.
Qed.

(** C3 as stated fails: of two never reviewed cards of one content item, a
    limit of 1 returns one only. *)
Lemma getForReview_limit_drops_null_card :
  Samples.twoFreshCards !! "f2" = Some (Samples.freshCard "second") ∧
  contentId (Samples.freshCard "second") = "c1" ∧
  lastReviewed (Samples.freshCard "second") = None ∧
  ("f2", Samples.freshCard "second") ∉ getForReview Samples.twoFreshCards 0 "c1" (Some 1%nat).
Proof.
  repeat split; try by vm_compute.
  assert (getForReview Samples.twoFreshCards 0 "c1" (Some 1%nat)
          = [("f1", Samples.freshCard "first")]) as -> by by vm_compute.
  intros H. apply list_elem_of_singleton in H. discriminate H.
Qed.

(** C3, amended: a never reviewed card is returned for its content item
    whenever the limit is at least the number of never reviewed cards of
    that item: these sort first. *)
Theorem getForReview_never_reviewed coll now (limit : nat) id f :
  coll !! id = Some f →
  lastReviewed f = None →
  (length (neverReviewed coll (contentId f)) ≤ limit)%nat →
  (id, f) ∈ getForReview coll now (contentId f) (Some limit).
Proof.
  intros Hid Hnull Hlimit. rewrite getForReview_unfold. simpl default.
  set (P := fun d : ObjectId * Flashcard =>
              contentId d.2 = contentId f ∧ lastReviewed d.2 = None).
  set (Q := fun d : ObjectId * Flashcard =>
              reviewQuery (contentId f) (now - 24 * 60 * 60 * 1000) d.2).
  set (sorted := merge_sort reviewOrder (filter Q (map_to_list coll))).
  assert (Hin : (id, f) ∈ sorted).
  { apply elem_of_selected. simpl. repeat split; try done. by left. }
  destruct limit as [|n]; [done|]. unfold limit_.
  destruct (list_elem_of_split _ _ Hin) as (l1 & l2 & Hsplit).
  pose proof (StronglySorted_merge_sort reviewOrder (filter Q (map_to_list coll))) as Hs.
  fold sorted in Hs. rewrite Hsplit in Hs.
  assert (Hall : Forall P l1).
  { apply Forall_forall. intros d Hd. split.
    - assert (Hd' : d ∈ sorted).
      { rewrite Hsplit, elem_of_app. by left. }
      by apply elem_of_selected in Hd' as (_ & Hc & _).
    - apply (reviewOrder_null_r d (id, f)); [|done].
      apply (StronglySorted_app_1_elem_of _ _ _ _ _ Hs Hd), list_elem_of_here. }
  assert (Hpos : (length l1 < length (neverReviewed coll (contentId f)))%nat).
  { eapply Nat.lt_le_trans;
      [apply (length_prefix_filter P l1 l2 (id, f) Hall); by split|].
    rewrite <- Hsplit. unfold sorted, neverReviewed.
    rewrite merge_sort_Permutation.
    apply length_filter_filter. }
  apply elem_of_take. exists (length l1). split; [|lia].
  rewrite Hsplit. by apply list_lookup_middle.
Qed.

Lemma getForReview_never_reviewed_witness :
  ("f1", Samples.freshCard "first") ∈
    getForReview Samples.mixedCards Samples.sampleNow "c1" (Some 1%nat).
Proof.
  apply (getForReview_never_reviewed Samples.mixedCards Samples.sampleNow 1
           "f1" (Samples.freshCard "first")).
  - vm_compute. reflexivity.
  - reflexivity.
  - vm_compute. lia.
Defined.



End FlashcardsProps.

(** ** Properties of the quiz scorer *)
Module QuizzesProps.
Import Quizzes Spec Facts.

(** What one iteration of the loop adds to [earnedPoints]. *)
Lemma score_step_awarded answers acc question :
  score_step answers acc question =
  ((acc.1 + points question)%Q,
   if decide (awarded answers question) then (acc.2 + points question)%Q else acc.2).
Proof.
  unfold score_step. fold (matchingAnswer answers question).
  destruct (decide (awarded answers question)) as [(a & -> & ->)|Hn]; [done|].
  destruct (matchingAnswer answers question) as [a|] eqn:E; [|done].
  destruct (isCorrect a) eqn:Ec; [|done].
  destruct Hn. exists a. by rewrite E.
Qed.

(** The loop of [calculateScore] sums the weights of all questions and the
    weights of the awarded ones. *)
Lemma foldl_score_step answers qs acc :
  ((foldl (score_step answers) acc qs).1 == acc.1 + sumQ (points <$> qs))%Q ∧
  ((foldl (score_step answers) acc qs).2 ==
     acc.2 + sumQ (points <$> filter (awarded answers) qs))%Q.
Proof.
  revert acc. induction qs as [|question qs IH]; intros acc.
  - rewrite filter_nil. simpl. unfold sumQ. simpl. split; ring.
  - destruct (IH (score_step answers acc question)) as [IH1 IH2].
    simpl foldl. rewrite IH1, IH2, score_step_awarded.
    rewrite filter_cons, fmap_cons.
    destruct (decide (awarded answers question)).
    + rewrite fmap_cons. unfold sumQ. simpl. split; ring.
    + unfold sumQ. simpl. split; ring.
Qed.

Lemma totalPoints_sumQ quiz : (totalPoints quiz == sumQ (points <$> questions quiz))%Q.
Proof.
  unfold totalPoints.
  cut (∀ acc,
        foldl (fun total question => total + points question) acc (questions quiz)
        == acc + sumQ (points <$> questions quiz))%Q.
  { intros ->. ring. } induction (questions quiz) as [|question qs IH]; intros acc.
  - unfold sumQ. simpl. ring.
  - simpl foldl. rewrite IH, fmap_cons. unfold sumQ. simpl. ring.
Qed.

Lemma earned_bounds (P : QuizQuestion → Prop) `{!∀ x, Decision (P x)} qs :
  Forall (fun question => (0 <= points question)%Q) qs →
  (0 <= sumQ (points <$> filter P qs))%Q ∧
  (sumQ (points <$> filter P qs) <= sumQ (points <$> qs))%Q.
Proof.
  induction 1 as [|question qs Hq _ [IH0 IH1]].
  - rewrite filter_nil. unfold sumQ. simpl. split; apply Qle_refl.
  - rewrite filter_cons. destruct (decide (P question)); rewrite !fmap_cons.
    + unfold sumQ in *. simpl. split.
      * by apply (Qplus_le_compat 0 _ 0 _).
      * by apply Qplus_le_compat; [apply Qle_refl|].
    + unfold sumQ in *. simpl. split; [done|].
      rewrite <- (Qplus_0_l (foldr Qplus 0%Q (points <$> filter P qs))).
      by apply Qplus_le_compat.
Qed.

Lemma Math_round_comp (x y : Q) : (x == y)%Q → Math_round x = Math_round y.
Proof. intros H. unfold Math_round. by rewrite H. Qed.

Lemma Math_round_bounds (x : Q) (a b : Z) :
  (inject_Z a <= x)%Q → (x <= inject_Z b)%Q → a ≤ Math_round x ≤ b.
Proof.
  intros Ha Hb. unfold Math_round. split.
  - rewrite <- (Qfloor_Z a). apply Qfloor_resp_le.
    rewrite <- (Qplus_0_r (inject_Z a)). by apply Qplus_le_compat.
  - assert (Qfloor (inject_Z b + (1 # 2)) = b) as <-.
    { unfold Qfloor, Qplus, inject_Z. simpl.
      symmetry. apply Z.div_unique with (r := 1); lia. }
    apply Qfloor_resp_le. by apply Qplus_le_compat; [|apply Qle_refl].
Qed.


(** The two sums of the loop, related to the notions of the specification. *)
Lemma calculateScore_sums quiz answers :
  let acc := foldl (score_step answers) (0%Q, 0%Q) (questions quiz) in
  (acc.1 == totalPoints quiz)%Q ∧ (acc.2 == earnedPoints quiz answers)%Q.
Proof.
  cbv zeta. destruct (foldl_score_step answers (questions quiz) (0%Q, 0%Q)) as [H1 H2].
  rewrite H1, H2, totalPoints_sumQ. unfold earnedPoints. simpl. split; ring.
Qed.

Lemma nonneg_totalPoints quiz answers :
  nonnegPoints quiz →
  (0 <= earnedPoints quiz answers)%Q ∧
  (earnedPoints quiz answers <= totalPoints quiz)%Q.
Proof.
  intros H. rewrite totalPoints_sumQ. by apply earned_bounds.
Qed.

(** The rounded percentage when the total is positive, 0 otherwise. *)
Lemma calculateScore_cases quiz answers :
  ((0 < totalPoints quiz)%Q ∧
   calculateScore quiz answers =
   Math_round (earnedPoints quiz answers / totalPoints quiz * 100)) ∨
  ((totalPoints quiz <= 0)%Q ∧ calculateScore quiz answers = 0).
Proof.
  unfold calculateScore. destruct (calculateScore_sums quiz answers) as [H1 H2].
  cbv zeta in *. destruct (Qlt_le_dec 0 _) as [Hlt|Hle].
  - left. rewrite H1 in Hlt. split; [done|].
    apply Math_round_comp. by rewrite H1, H2.
  - right. rewrite H1 in Hle. by split.
Qed.

Lemma percentage_bounds (earned total : Q) :
  (0 <= earned)%Q → (earned <= total)%Q → (0 < total)%Q →
  (0 <= earned / total * 100)%Q ∧ (earned / total * 100 <= 100)%Q.
Proof.
  intros H0 H1 Ht.
  assert (Hinv : (0 < / total)%Q) by by apply Qinv_lt_0_compat.
  split.
  - apply Qmult_le_0_compat; [|done].
    apply Qmult_le_0_compat; [done|]. by apply Qlt_le_weak.
  - apply Qle_trans with (1 * 100)%Q; [|done].
    apply Qmult_le_compat_r; [|done].
    apply Qle_shift_div_r; [done|]. by rewrite Qmult_1_l.
Qed.

Lemma foldl_score_step_ext answers answers' qs acc :
  (∀ question, question ∈ qs →
     matchingAnswer answers question = matchingAnswer answers' question) →
  foldl (score_step answers) acc qs = foldl (score_step answers') acc qs.
Proof.
  revert acc. induction qs as [|question qs IH]; intros acc H; [done|].
  simpl. rewrite IH by (intros; apply H; by apply list_elem_of_further).
  f_equal. unfold score_step. fold (matchingAnswer answers question).
  fold (matchingAnswer answers' question). by rewrite H by apply list_elem_of_here.
Qed.

Lemma calculateScore_ext quiz answers answers' :
  (∀ question, question ∈ questions quiz →
     matchingAnswer answers question = matchingAnswer answers' question) →
  calculateScore quiz answers = calculateScore quiz answers'.
Proof.
  intros H. unfold calculateScore. by rewrite (foldl_score_step_ext _ _ _ _ H).
Qed.






End QuizzesProps.

(** ** Properties of the request handlers *)
Module RoutesProps.
Import Routes Spec.

(** *** Marking a flashcard as reviewed *)

Lemma reviewRoute_not_found now db user id :
  flashcards db !! id = None →
  reviewRoute now db user id = (db, Err 404 "Flashcard not found").
Proof. intros H. unfold reviewRoute. by rewrite H. Qed.

Lemma reviewRoute_denied now db user id f :
  flashcards db !! id = Some f →
  findOwnedContent db (Flashcards.contentId f) user = None →
  reviewRoute now db user id = (db, Err 403 "Access denied").
Proof. intros H1 H2. unfold reviewRoute. by rewrite H1, H2. Qed.

Lemma reviewRoute_success now db user id f c :
  flashcards db !! id = Some f →
  findOwnedContent db (Flashcards.contentId f) user = Some c →
  reviewRoute now db user id =
  (mkDB (contents db) (<[id := Flashcards.markReviewed now f]> (flashcards db))
     (quizzes db),
   Ok (mkReviewData id (Flashcards.reviewCount f + 1) (Some now)
         (Flashcards.masteryLevel (Flashcards.markReviewed now f)))).
Proof. intros H1 H2. unfold reviewRoute. by rewrite H1, H2. Qed.

(** C6 as stated fails: the card [f1] exists, yet the request of user [u2],
    who does not own its content, fails; and the successful request of the
    owner also moves [updatedAt]. *)
Lemma reviewRoute_fails_for_other_user :
  flashcards Samples.sampleDB !! "f1" = Some (Samples.freshCard "first") ∧
  reviewRoute Samples.sampleNow Samples.sampleDB "u2" "f1" =
    (Samples.sampleDB, Err 403 "Access denied") ∧
  Flashcards.updatedAt <$>
    flashcards (reviewRoute Samples.sampleNow Samples.sampleDB "u1" "f1").1 !! "f1"
    = Some Samples.sampleNow ∧
  Flashcards.updatedAt (Samples.freshCard "first") ≠ Samples.sampleNow.
Proof. split_and!; by vm_compute. Qed.

(** C6, amended: when the card exists and the caller owns its content, the
    handler adds 1 to [reviewCount], sets [lastReviewed] to the clock
    reading, which is not earlier than the call, stamps [updatedAt], and
    changes no other attribute of the card and no other record.  It fails,
    changing nothing, when the card is not found (404) and when the caller
    does not own the content of the card (403), and in no other case. *)
Theorem reviewRoute_marks_reviewed now db user id :
  let out := reviewRoute now db user id in
  (∀ f c,
     flashcards db !! id = Some f →
     findOwnedContent db (Flashcards.contentId f) user = Some c →
     ∃ f',
       flashcards out.1 !! id = Some f' ∧
       Flashcards.reviewCount f' = Flashcards.reviewCount f + 1 ∧
       Flashcards.lastReviewed f' = Some now ∧
       (∀ callTime, callTime ≤ now →
          ∃ t, Flashcards.lastReviewed f' = Some t ∧ callTime ≤ t) ∧
       Flashcards.updatedAt f' = now ∧
       Flashcards.contentId f' = Flashcards.contentId f ∧
       Flashcards.question f' = Flashcards.question f ∧
       Flashcards.answer f' = Flashcards.answer f ∧
       Flashcards.difficulty f' = Flashcards.difficulty f ∧
       Flashcards.tags f' = Flashcards.tags f ∧
       Flashcards.createdAt f' = Flashcards.createdAt f ∧
       (∀ j, j ≠ id → flashcards out.1 !! j = flashcards db !! j) ∧
       contents out.1 = contents db ∧
       quizzes out.1 = quizzes db ∧
       out.2 = Ok (mkReviewData id (Flashcards.reviewCount f + 1) (Some now)
                     (Flashcards.masteryLevel f'))) ∧
  (flashcards db !! id = None → out = (db, Err 404 "Flashcard not found")) ∧
  (∀ f,
     flashcards db !! id = Some f →
     findOwnedContent db (Flashcards.contentId f) user = None →
     out = (db, Err 403 "Access denied")).
Proof.
  cbv zeta. split_and!.
  - intros f c Hf Hc. rewrite (reviewRoute_success now db user id f c Hf Hc).
    simpl. exists (Flashcards.markReviewed now f). split_and!; try done.
    + apply lookup_insert_eq.
    + intros callTime Hle. by exists now.
    + intros j Hj. by apply lookup_insert_ne.
  - apply reviewRoute_not_found.
  - apply reviewRoute_denied.
Qed.

Lemma reviewRoute_marks_reviewed_witness :
  ∃ f',
    flashcards (reviewRoute Samples.sampleNow Samples.sampleDB "u1" "f2").1 !! "f2"
      = Some f' ∧
    Flashcards.reviewCount f' = 4 ∧
    Flashcards.lastReviewed f' = Some Samples.sampleNow.
Proof.
  destruct (reviewRoute_marks_reviewed Samples.sampleNow Samples.sampleDB "u1" "f2")
    as (H & _ & _).
  destruct (H (Flashcards.mkFlashcard "c1" "second" "answer" Flashcards.hard []
                 (Some (Samples.sampleNow - 2 * 86400000)) 3 1000 2000)
              Samples.helloNote)
    as (f' & Hf' & Hrc & Hlr & _).
  - vm_compute. reflexivity.
  - vm_compute. reflexivity.
  - exists f'. split_and!; [exact Hf' | exact Hrc | exact Hlr].
Defined.

(** *** Recording a quiz attempt *)

Lemma addAttempt_Some newId now quiz user answers timeSpent quiz' :
  Quizzes.addAttempt newId now quiz user answers timeSpent = Some quiz' →
  Quizzes.attempts quiz' =
    Quizzes.attempts quiz ++
    [Quizzes.mkQuizAttempt newId user (Quizzes.calculateScore quiz answers)
       answers now timeSpent] ∧
  Quizzes.questions quiz' = Quizzes.questions quiz.
Proof.
  unfold Quizzes.addAttempt. cbv zeta. case_decide; [|done].
  by intros [= <-].
Qed.

(** The handler either stores the quiz that [addAttempt] returns and answers
    with the score and the number of attempts, or fails and leaves the store
    as it was. *)
Lemma attemptRoute_cases newId now db user id answers timeSpent :
  let out := attemptRoute newId now db user id answers timeSpent in
  (∃ quiz quiz',
     quizzes db !! id = Some quiz ∧
     Quizzes.addAttempt newId now quiz user answers timeSpent = Some quiz' ∧
     out = (mkDB (contents db) (flashcards db) (<[id := quiz']> (quizzes db)),
            Ok (mkAttemptData (Quizzes.calculateScore quiz answers)
                  (Z.of_nat (length (Quizzes.attempts quiz)) + 1)))) ∨
  (out.1 = db ∧ ∀ data, out.2 ≠ Ok data).
Proof.
  cbv zeta. unfold attemptRoute. case_decide; [by right|].
  destruct (quizzes db !! id) as [quiz|] eqn:Hq; [|by right].
  destruct (findOwnedContent db _ user); [|by right].
  destruct (Quizzes.addAttempt _ _ _ _ _ _) as [quiz'|] eqn:Ha; [|by right].
  left. exists quiz, quiz'. split_and!; try done.
  destruct (addAttempt_Some _ _ _ _ _ _ _ Ha) as [-> _].
  rewrite last_snoc, length_app. simpl. do 3 f_equal. lia.
Qed.

(** Whatever happens to the store, a quiz stays and its attempts stay where
    they are, as they are. *)
Lemma step_attempts_prefix db e qid quiz :
  quizzes db !! qid = Some quiz →
  ∃ quiz', quizzes (step db e) !! qid = Some quiz' ∧
           Quizzes.attempts quiz `prefix_of` Quizzes.attempts quiz'.
Proof.
  intros Hq. destruct e as [newId now user id answers timeSpent|now user id|id qs];
    simpl.
  - destruct (attemptRoute_cases newId now db user id answers timeSpent)
      as [(q & q' & Hid & Ha & ->)|[-> _]]; [|by exists quiz].
    simpl. destruct (decide (id = qid)) as [->|Hne].
    + rewrite lookup_insert_eq. exists q'. split; [done|].
      destruct (addAttempt_Some _ _ _ _ _ _ _ Ha) as [-> _].
      rewrite Hq in Hid. injection Hid as <-. by apply prefix_app_r.
    + rewrite lookup_insert_ne by done. by exists quiz.
  - assert (quizzes (reviewRoute now db user id).1 = quizzes db) as ->; [|by exists quiz].
    unfold reviewRoute. destruct (flashcards db !! id); [|done].
    by destruct (findOwnedContent db _ user).
  - destruct (decide (id = qid)) as [->|Hne].
    + rewrite lookup_alter_eq, Hq. simpl. by exists (replaceQuestions qs quiz).
    + rewrite lookup_alter_ne by done. by exists quiz.
Qed.

Lemma run_attempts_prefix events db qid quiz :
  quizzes db !! qid = Some quiz →
  ∃ quiz', quizzes (run db events) !! qid = Some quiz' ∧
           Quizzes.attempts quiz `prefix_of` Quizzes.attempts quiz'.
Proof.
  revert db quiz. induction events as [|e events IH]; intros db quiz Hq.
  - by exists quiz.
  - destruct (step_attempts_prefix db e qid quiz Hq) as (q1 & H1 & Hp1).
    destruct (IH (step db e) q1 H1) as (q2 & H2 & Hp2).
    exists q2. split; [done|]. by transitivity (Quizzes.attempts q1).
Qed.

(** C7: a successful submission appends exactly one attempt, whose score is
    the one computed from the questions of that moment, and the number of
    attempts the handler reports is the former number plus 1; a failing
    submission changes nothing; and whatever happens later, further
    submissions and changes of the questions included, every stored attempt
    stays at its position with its score. *)
Theorem attempts_append_only newId now db user id answers timeSpent :
  let out := attemptRoute newId now db user id answers timeSpent in
  (∀ data, out.2 = Ok data →
     ∃ quiz quiz' attempt,
       quizzes db !! id = Some quiz ∧
       quizzes out.1 !! id = Some quiz' ∧
       Quizzes.attempts quiz' = Quizzes.attempts quiz ++ [attempt] ∧
       Quizzes.score attempt = Quizzes.calculateScore quiz answers ∧
       ad_score data = Quizzes.score attempt ∧
       ad_totalAttempts data = Z.of_nat (length (Quizzes.attempts quiz)) + 1 ∧
       ∀ j, j ≠ id → quizzes out.1 !! j = quizzes db !! j) ∧
  ((∀ data, out.2 ≠ Ok data) → out.1 = db) ∧
  (∀ qid quiz, quizzes db !! qid = Some quiz →
     ∃ quiz', quizzes out.1 !! qid = Some quiz' ∧
              Quizzes.attempts quiz `prefix_of` Quizzes.attempts quiz') ∧
  (∀ events qid quiz i attempt,
     quizzes out.1 !! qid = Some quiz →
     Quizzes.attempts quiz !! i = Some attempt →
     ∃ quiz', quizzes (run out.1 events) !! qid = Some quiz' ∧
              Quizzes.attempts quiz' !! i = Some attempt).
Proof.
  cbv zeta. split_and!.
  - intros data Hok.
    destruct (attemptRoute_cases newId now db user id answers timeSpent)
      as [(q & q' & Hid & Ha & Hout)|[_ Hfail]]; [|by destruct (Hfail data)].
    rewrite Hout in Hok |- *. simpl in *. injection Hok as <-.
    destruct (addAttempt_Some _ _ _ _ _ _ _ Ha) as [Hatt _].
    eexists q, q', _. split_and!; try done.
    + apply lookup_insert_eq.
    + intros j Hj. by apply lookup_insert_ne.
  - intros Hfail.
    destruct (attemptRoute_cases newId now db user id answers timeSpent)
      as [(q & q' & _ & _ & Hout)|[Hdb _]]; [|done].
    rewrite Hout in Hfail. simpl in Hfail. by edestruct Hfail.
  - intros qid quiz Hq.
    apply (step_attempts_prefix db (Attempt newId now user id answers timeSpent)
             qid quiz Hq).
  - intros events qid quiz i attempt Hq Hi.
    destruct (run_attempts_prefix events _ qid quiz Hq) as (quiz' & Hq' & Hp).
    exists quiz'. split; [done|]. by apply (prefix_lookup_Some _ _ _ _ Hi).
Qed.

Lemma attempts_append_only_witness :
  ∃ quiz' attempt,
    quizzes (attemptRoute "a1" Samples.sampleNow Samples.sampleDB "u1" "z1"
               [Samples.right2] 60).1 !! "z1" = Some quiz' ∧
    Quizzes.attempts quiz' = [attempt] ∧
    Quizzes.score attempt = 75.
Proof.
  destruct (attempts_append_only "a1" Samples.sampleNow Samples.sampleDB "u1" "z1"
              [Samples.right2] 60) as (H & _).
  destruct (H (mkAttemptData 75 1)) as (quiz & quiz' & attempt & Hq & Hq' & Ha & Hs & _).
  - vm_compute. reflexivity.
  - exists quiz', attempt. split; [exact Hq'|].
    assert (quiz = Samples.quiz13) as ->.
    { apply (inj Some). rewrite <- Hq. vm_compute. reflexivity. }
    split; [exact Ha|]. rewrite Hs. vm_compute. reflexivity.
Defined.

End RoutesProps.

(** ** Further facts about numbers *)
Module NumberFacts.

(** [Math.ceil] of a quotient of integers. *)
Lemma Qceiling_div (a b : Z) :
  0 < b → Qceiling (inject_Z a / inject_Z b) = - ((- a) `div` b).
Proof.
  intros Hb. destruct b as [|p|p]; try lia.
  unfold Qceiling, Qfloor, Qdiv, Qinv, Qmult, Qopp, inject_Z. simpl.
  rewrite Z.mul_1_r. f_equal.
Qed.

Lemma Qceiling_div_bounds (a b : Z) :
  0 < b →
  b * (Qceiling (inject_Z a / inject_Z b) - 1) < a ≤ b * Qceiling (inject_Z a / inject_Z b).
Proof.
  intros Hb. rewrite Qceiling_div by done.
  pose proof (Z.div_mod (- a) b ltac:(lia)).
  pose proof (Z.mod_pos_bound (- a) b Hb). nia.
Qed.

(** [Math.round] of a percentage of integers. *)
Lemma Math_round_ratio (k n : Z) :
  0 < n →
  Quizzes.Math_round (inject_Z k / inject_Z n * 100) = (200 * k + n) `div` (2 * n).
Proof.
  intros Hn. destruct n as [|p|p]; try lia.
  unfold Quizzes.Math_round, Qfloor, Qplus, Qmult, Qdiv, Qinv, inject_Z. simpl.
  f_equal; lia.
Qed.

Lemma Math_round_ratio_bounds (k n : Z) :
  0 < n → 0 ≤ k ≤ n →
  0 ≤ (200 * k + n) `div` (2 * n) ≤ 100 ∧
  (k = n → (200 * k + n) `div` (2 * n) = 100) ∧
  (k = 0 → (200 * k + n) `div` (2 * n) = 0).
Proof.
  intros Hn Hk. split_and!.
  - apply Z.div_pos; lia.
  - cut ((200 * k + n) `div` (2 * n) < 101); [lia|].
    apply Z.div_lt_upper_bound; lia.
  - intros ->. symmetry. apply (Z.div_unique _ _ 100 n); lia.
  - intros ->. apply Z.div_small. lia.
Qed.

End NumberFacts.

(** ** Facts about collections *)
Module CollectionFacts.

(** The documents of a collection after one is stored under a new key. *)
Lemma docs_insert_None {A} (m : gmap ObjectId A) k x :
  m !! k = None → map_to_list (<[k:=x]> m) ≡ₚ (k, x) :: map_to_list m.
Proof. apply map_to_list_insert. Qed.

(** The documents of a collection before and after one is replaced. *)
Lemma docs_insert_Some {A} (m : gmap ObjectId A) k x x0 :
  m !! k = Some x0 →
  map_to_list (<[k:=x]> m) ≡ₚ (k, x) :: map_to_list (delete k m) ∧
  map_to_list m ≡ₚ (k, x0) :: map_to_list (delete k m).
Proof.
  intros H. split.
  - rewrite <- insert_delete_eq. apply map_to_list_insert, lookup_delete_eq.
  - symmetry. by apply map_to_list_delete.
Qed.

Lemma sum_Permutation {A} (f : A → Z) (l1 l2 : list A) :
  l1 ≡ₚ l2 → foldr (fun x acc => f x + acc) 0 l1 = foldr (fun x acc => f x + acc) 0 l2.
Proof. induction 1; simpl; lia. Qed.

Lemma length_filter_Permutation {A} (P : A → Prop) `{!∀ x, Decision (P x)}
    (l1 l2 : list A) :
  l1 ≡ₚ l2 → length (filter P l1) = length (filter P l2).
Proof. by intros ->. Qed.

End CollectionFacts.

(** ** Further properties of the content model *)
Module ContentModelProps.
Import Contents Spec Facts NumberFacts CollectionFacts.

Lemma sum_strLenCP docs :
  foldr (fun c acc => strLenCP (content c) + acc) 0 docs = sumContentLength docs.
Proof. reflexivity. Qed.

(** The result of the pipeline, in terms of the documents of the user. *)
Lemma content_getStats_eq coll uid :
  getStats coll uid =
  match match_stage coll uid with
  | [] => []
  | docs =>
      [mkStatsDoc (Z.of_nat (length docs)) (sumContentLength docs)
         (countType document (type <$> docs)) (countType video (type <$> docs))
         (countType article (type <$> docs)) (countType note (type <$> docs))]
  end.
Proof.
  unfold getStats, group_stage. destruct (match_stage coll uid) as [|c docs]; [done|].
  simpl foldl. rewrite ContentsProps.foldl_group_step_Some. simpl.
  unfold project_stage. simpl. f_equal.
  by replace (1 + Z.of_nat (length docs)) with (Z.of_nat (S (length docs))) by lia.
Qed.

Lemma countType_partition (ts : list ContentType) :
  countType document ts + countType video ts + countType article ts + countType note ts
  = Z.of_nat (length ts).
Proof.
  unfold countType. induction ts as [|t ts IH]; [done|].
  rewrite !filter_cons.
  destruct t; repeat case_decide; try done; simpl length in *; lia.
Qed.

(** X1: when [getStats] has a result it has exactly one; its
    [totalContent] is the number of documents of the user, which is
    positive, the four counts by type add up to it, and [totalWords] is the
    sum of the lengths of the texts. *)
Theorem getStats_counts_partition coll uid d :
  d ∈ getStats coll uid →
  getStats coll uid = [d] ∧
  totalContent d = Z.of_nat (length (match_stage coll uid)) ∧
  0 < totalContent d ∧
  documentCount d + videoCount d + articleCount d + noteCount d = totalContent d ∧
  totalWords d = sumContentLength (match_stage coll uid).
Proof.
  rewrite content_getStats_eq. destruct (match_stage coll uid) as [|c docs] eqn:E.
  - intros H. by apply not_elem_of_nil in H.
  - intros H. apply list_elem_of_singleton in H as ->. simpl.
    split_and!; try done; try lia.
    rewrite <- fmap_cons, countType_partition, length_fmap. done.
Qed.

Lemma getStats_counts_partition_witness :
  documentCount (mkStatsDoc 1 11 0 0 0 1) + videoCount (mkStatsDoc 1 11 0 0 0 1)
  + articleCount (mkStatsDoc 1 11 0 0 0 1) + noteCount (mkStatsDoc 1 11 0 0 0 1)
  = totalContent (mkStatsDoc 1 11 0 0 0 1).
Proof.
  apply (getStats_counts_partition Samples.oneNote "u1" (mkStatsDoc 1 11 0 0 0 1)).
  vm_compute. apply list_elem_of_here.
Defined.

(** The statistics depend on the documents of the user only, not on their
    order. *)
Lemma content_getStats_Permutation coll coll' uid :
  match_stage coll uid ≡ₚ match_stage coll' uid →
  getStats coll uid = getStats coll' uid.
Proof.
  intros HP. rewrite !content_getStats_eq.
  destruct (match_stage coll uid) as [|c docs] eqn:E;
    destruct (match_stage coll' uid) as [|c' docs'] eqn:E'.
  - done.
  - by apply Permutation_nil_cons in HP.
  - symmetry in HP. by apply Permutation_nil_cons in HP.
  - rewrite <- E, <- E' in *. clear E E'.
    unfold sumContentLength, countType.
    rewrite (sum_Permutation contentLength _ _ HP).
    by rewrite HP.
Qed.

Lemma match_stage_cons_other coll uid (d : ObjectId * Content) l :
  userId d.2 ≠ uid →
  map_to_list coll ≡ₚ d :: l →
  match_stage coll uid ≡ₚ filter (fun c => userId c = uid) l.*2.
Proof.
  intros Hne HP. unfold match_stage. rewrite HP, fmap_cons.
  by rewrite filter_cons_False.
Qed.

(** X2: the statistics of a user do not change when a document of another
    user is stored, replaced or deleted. *)
Theorem statsRoute_other_users coll uid k c :
  userId c ≠ uid →
  (∀ c0, coll !! k = Some c0 → userId c0 ≠ uid) →
  statsRoute (<[k:=c]> coll) uid = statsRoute coll uid ∧
  statsRoute (delete k coll) uid = statsRoute coll uid.
Proof.
  intros Hc Hold.
  assert (Hins : getStats (<[k:=c]> coll) uid = getStats coll uid).
  { apply content_getStats_Permutation. destruct (coll !! k) as [c0|] eqn:Hk.
    - destruct (docs_insert_Some coll k c c0 Hk) as [H1 H2].
      rewrite (match_stage_cons_other _ uid (k, c) _ Hc H1).
      by rewrite (match_stage_cons_other _ uid (k, c0) _ (Hold c0 eq_refl) H2).
    - rewrite (match_stage_cons_other _ uid (k, c) _ Hc (docs_insert_None coll k c Hk)).
      done. }
  assert (Hdel : getStats (delete k coll) uid = getStats coll uid).
  { apply content_getStats_Permutation. destruct (coll !! k) as [c0|] eqn:Hk.
    - destruct (docs_insert_Some coll k c c0 Hk) as [_ H2].
      by rewrite (match_stage_cons_other _ uid (k, c0) _ (Hold c0 eq_refl) H2).
    - by rewrite delete_id. }
  unfold statsRoute. by rewrite Hins, Hdel.
Qed.

Lemma statsRoute_other_users_witness :
  statsRoute (<["c2" := mkContent "u2" "Other" article "web" (text "a b c")]>
                Samples.oneNote) "u1"
  = statsRoute Samples.oneNote "u1".
Proof.
  apply (statsRoute_other_users Samples.oneNote "u1" "c2"
           (mkContent "u2" "Other" article "web" (text "a b c"))).
  - vm_compute. discriminate.
  - intros c0. vm_compute. discriminate.
Defined.

(** *** Counting words *)

(** The pieces of [split] that are not empty are as many as the words that
    start in the rest of the text, plus the one being read. *)
Lemma length_nonempty_cons (w : list codepoint) (l : list (list codepoint)) :
  length (filter (fun word : list codepoint => (0 < length word)%nat) (w :: l))
  = (match w with [] => 0 | _ => 1 end
     + length (filter (fun word : list codepoint => (0 < length word)%nat) l))%nat.
Proof.
  rewrite filter_cons. destruct (decide _) as [H|H]; destruct w; simpl in *; lia.
Qed.

Lemma split_go_wordStarts in_sep cur s :
  (in_sep = true → cur = []) →
  length (filter (fun word : list codepoint => (0 < length word)%nat)
            (split_go in_sep cur s))
  = (match cur with [] => 0 | _ => 1 end
     + wordStarts match cur with [] => false | _ => true end s)%nat.
Proof.
  assert (Hrev : ∀ l : list codepoint,
            match rev l with [] => 0%nat | _ => 1%nat end
            = match l with [] => 0%nat | _ => 1%nat end).
  { intros l. pose proof (length_rev l) as H. destruct (rev l); destruct l; simpl in *; lia. }
  revert in_sep cur. induction s as [|c s IH]; intros in_sep cur Hsep;
    cbn [split_go wordStarts].
  - rewrite length_nonempty_cons, filter_nil, Hrev. simpl. lia.
  - destruct (is_space c).
    + destruct in_sep.
      * rewrite (Hsep eq_refl). by rewrite (IH true []).
      * rewrite length_nonempty_cons, (IH true []), Hrev by done.
        destruct cur; simpl; lia.
    + rewrite (IH false (c :: cur)) by done. destruct cur; simpl; lia.
Qed.

Lemma wordStarts_bound in_word s :
  (2 * wordStarts in_word s ≤ length s + (if in_word then 0 else 1))%nat.
Proof.
  revert in_word. induction s as [|c s IH]; intros in_word; simpl;
    [destruct in_word; lia|].
  destruct (is_space c).
  - specialize (IH false). simpl in IH. destruct in_word; lia.
  - specialize (IH true). simpl in IH. destruct in_word; lia.
Qed.

Lemma wordStarts_zero s :
  wordStarts false s = 0%nat ↔ Forall (fun c => is_space c = true) s.
Proof.
  induction s as [|c s IH]; simpl.
  - split; [constructor|done].
  - destruct (is_space c) eqn:Ec.
    + rewrite IH. split; [by constructor|]. by intros [_ ?]%Forall_cons.
    + split; [done|]. intros [? _]%Forall_cons. congruence.
Qed.

(** X3: the word count is the number of word starts of the text; twice the
    word count is at most the length of the text plus 1; and the word count
    is 0 exactly for a text that is white space throughout. *)
Theorem wordCount_word_starts (c : Content) :
  wordCount c = Z.of_nat (wordStarts false (content c)) ∧
  2 * wordCount c ≤ contentLength c + 1 ∧
  (wordCount c = 0 ↔ Forall (fun x => is_space x = true) (content c)).
Proof.
  assert (E : wordCount c = Z.of_nat (wordStarts false (content c))).
  { unfold wordCount, split_ws. by rewrite (split_go_wordStarts false []). }
  split_and!; [done| |].
  - rewrite E. unfold contentLength.
    pose proof (wordStarts_bound false (content c)) as Hb. simpl in Hb. lia.
  - rewrite E, <- wordStarts_zero. lia.
Qed.

(** X4: the reading time is the least number of minutes at 200 words per
    minute: [200 * (readingTime - 1) < wordCount <= 200 * readingTime]; it
    is 0 exactly when there is no word. *)
Theorem readingTime_bounds (c : Content) :
  200 * (readingTime c - 1) < wordCount c ≤ 200 * readingTime c ∧
  0 ≤ readingTime c ∧
  (readingTime c = 0 ↔ wordCount c = 0).
Proof.
  unfold readingTime.
  pose proof (Qceiling_div_bounds (wordCount c) 200 ltac:(lia)) as H.
  change (inject_Z 200) with 200%Q in H.
  assert (0 ≤ wordCount c) by (unfold wordCount; lia).
  lia.
Qed.

End ContentModelProps.

(** ** Further properties of the flashcard model *)
Module FlashcardModelProps.
Import Flashcards Spec Facts NumberFacts CollectionFacts.

(** X5: [daysSinceReview] is [null] exactly for a card that was never
    reviewed; otherwise it is the least number of whole days that covers
    the distance between the clock reading and [lastReviewed]; it is 0 at
    the instant of the review; and for a card that was reviewed in the past
    it is at least 2 exactly when the card passes the filter of
    [getForReview] (last reviewed more than 24 hours ago). *)
Theorem daysSinceReview_days (now : Date) (f : Flashcard) :
  (daysSinceReview now f = None ↔ lastReviewed f = None) ∧
  (∀ t, lastReviewed f = Some t →
     ∃ d, daysSinceReview now f = Some d ∧ 0 ≤ d ∧
          86400000 * (d - 1) < Z.abs (now - t) ≤ 86400000 * d) ∧
  daysSinceReview now (markReviewed now f) = Some 0 ∧
  (∀ t d cid, lastReviewed f = Some t → t ≤ now →
     daysSinceReview now f = Some d →
     (reviewQuery cid (now - 24 * 60 * 60 * 1000) f ↔ contentId f = cid ∧ 2 ≤ d)).
Proof.
  assert (Hb : ∀ a, 86400000 * (Qceiling (inject_Z a / inject_Z (1000 * 60 * 60 * 24)) - 1)
                    < a ≤ 86400000 * Qceiling (inject_Z a / inject_Z (1000 * 60 * 60 * 24))).
  { intros a. apply (Qceiling_div_bounds a (1000 * 60 * 60 * 24)). lia. }
  split_and!.
  - unfold daysSinceReview. by destruct (lastReviewed f).
  - intros t Ht. unfold daysSinceReview. rewrite Ht. cbv zeta.
    eexists. split; [done|]. specialize (Hb (Z.abs (now - t))). lia.
  - unfold daysSinceReview. simpl. rewrite Z.sub_diag. reflexivity.
  - intros t d cid Ht Hle. unfold daysSinceReview, reviewQuery. rewrite Ht.
    cbv zeta. intros [= <-]. specialize (Hb (Z.abs (now - t))).
    split; intros [? ?]; (split; [done|lia]).
Qed.

Lemma daysSinceReview_days_witness :
  reviewQuery "c1" (Samples.sampleNow - 24 * 60 * 60 * 1000)
    (mkFlashcard "c1" "second" "answer" hard []
       (Some (Samples.sampleNow - 2 * 86400000)) 3 1000 2000)
  ↔ "c1" = "c1" ∧ 2 ≤ 2.
Proof.
  destruct (daysSinceReview_days Samples.sampleNow
              (mkFlashcard "c1" "second" "answer" hard []
                 (Some (Samples.sampleNow - 2 * 86400000)) 3 1000 2000))
    as (_ & _ & _ & H).
  apply (H (Samples.sampleNow - 2 * 86400000) 2 "c1").
  - reflexivity.
  - vm_compute. discriminate.
  - vm_compute. reflexivity.
Defined.

(** *** Listing the cards of a content item *)

Global Instance newestFirst_total : Total newestFirst.
Proof. intros x y. unfold newestFirst. lia. Qed.

Global Instance newestFirst_transitive : Transitive newestFirst.
Proof. intros x y z. unfold newestFirst. lia. Qed.

Lemma contentQuery_spec cid opt_d opt_t f :
  contentQuery cid opt_d opt_t f ↔
  contentId f = cid ∧
  (∀ d, opt_d = Some d → difficulty f = d) ∧
  (∀ ts, opt_t = Some ts → ts ≠ [] → ∃ tag, tag ∈ tags f ∧ tag ∈ ts).
Proof.
  unfold contentQuery. split.
  - intros (Hc & Hd & Ht). split_and!; [done| |].
    + by intros d ->.
    + intros ts -> Hne. destruct ts as [|t ts]; [done|].
      apply Exists_exists in Ht as (tag & ? & ?). by exists tag.
  - intros (Hc & Hd & Ht). split_and!; [done| |].
    + destruct opt_d; [|done]. by apply Hd.
    + destruct opt_t as [[|t ts]|]; try done.
      destruct (Ht (t :: ts) eq_refl ltac:(done)) as (tag & ? & ?).
      apply Exists_exists. by exists tag.
Qed.

(** X6: [findByContent] with a positive limit returns the newest [limit]
    of exactly the cards of the content item that have the difficulty
    asked for, if any, and share a tag with the tags asked for, if any are
    given: [rest] is what the limit cuts off.  An absent limit is 50, and
    an empty array of tags filters nothing. *)
Theorem findByContent_selects_newest coll cid opt_d opt_t (limit : nat) :
  (0 < limit)%nat →
  ∃ rest,
    let out := findByContent coll cid (mkFindOptions opt_d opt_t (Some limit)) in
    (∀ id f, (id, f) ∈ out ++ rest ↔
       coll !! id = Some f ∧ contentId f = cid ∧
       (∀ d, opt_d = Some d → difficulty f = d) ∧
       (∀ ts, opt_t = Some ts → ts ≠ [] → ∃ tag, tag ∈ tags f ∧ tag ∈ ts)) ∧
    NoDup (out ++ rest) ∧
    StronglySorted newestFirst (out ++ rest) ∧
    length out = (limit `min` length (out ++ rest))%nat ∧
    findByContent coll cid (mkFindOptions opt_d opt_t None) =
      findByContent coll cid (mkFindOptions opt_d opt_t (Some 50%nat)) ∧
    findByContent coll cid (mkFindOptions opt_d (Some []) (Some limit)) =
      findByContent coll cid (mkFindOptions opt_d None (Some limit)).
Proof.
  intros Hpos. unfold findByContent. simpl.
  set (sorted := merge_sort newestFirst
                   (filter (fun d : ObjectId * Flashcard => contentQuery cid opt_d opt_t d.2)
                      (map_to_list coll))).
  exists (drop limit sorted).
  destruct limit as [|n]; [lia|]. unfold limit_ at 1 2 3 4 5.
  rewrite take_drop. split_and!.
  - intros id f. unfold sorted.
    rewrite merge_sort_Permutation, list_elem_of_filter, elem_of_map_to_list.
    simpl. rewrite contentQuery_spec. tauto.
  - unfold sorted. rewrite merge_sort_Permutation.
    apply NoDup_filter, NoDup_map_to_list.
  - apply StronglySorted_merge_sort; apply _.
  - apply length_take.
  - reflexivity.
  - reflexivity.
Qed.

Lemma findByContent_selects_newest_witness :
  ∃ rest,
    let out := findByContent Samples.mixedCards "c1"
                 (mkFindOptions (Some hard) None (Some 2%nat)) in
    (∀ id f, (id, f) ∈ out ++ rest ↔
       Samples.mixedCards !! id = Some f ∧ contentId f = "c1" ∧
       (∀ d, Some hard = Some d → difficulty f = d) ∧
       (∀ ts, @None (list string) = Some ts → ts ≠ [] →
              ∃ tag, tag ∈ tags f ∧ tag ∈ ts)) ∧
    NoDup (out ++ rest) ∧
    StronglySorted newestFirst (out ++ rest) ∧
    length out = (2 `min` length (out ++ rest))%nat ∧
    findByContent Samples.mixedCards "c1" (mkFindOptions (Some hard) None None) =
      findByContent Samples.mixedCards "c1" (mkFindOptions (Some hard) None (Some 50%nat)) ∧
    findByContent Samples.mixedCards "c1" (mkFindOptions (Some hard) (Some []) (Some 2%nat)) =
      findByContent Samples.mixedCards "c1" (mkFindOptions (Some hard) None (Some 2%nat)).
Proof.
  apply (findByContent_selects_newest Samples.mixedCards "c1" (Some hard) None 2).
  lia.
Defined.

(** *** Statistics of the cards of a content item *)

Lemma foldl_review_group_step_Some g cards :
  foldl group_step (Some g) cards =
  Some (mkReviewGroup (g_total g + Z.of_nat (length cards))
          (g_byDifficulty g ++ (difficulty <$> cards))
          (g_totalReviews g + sumReviewCount cards)).
Proof.
  revert g. induction cards as [|f cards IH]; intros [n ds r]; simpl.
  - by rewrite !Z.add_0_r, app_nil_r.
  - rewrite IH. simpl. do 2 f_equal; [lia | by rewrite <- app_assoc | lia].
Qed.

Lemma flashcard_getStats_eq coll cid :
  getStats coll cid =
  match cardsOf coll cid with
  | [] => []
  | cards =>
      [mkReviewStats (Z.of_nat (length cards)) (sumReviewCount cards)
         (countDifficulty easy (difficulty <$> cards))
         (countDifficulty medium (difficulty <$> cards))
         (countDifficulty hard (difficulty <$> cards))]
  end.
Proof.
  unfold getStats. fold (cardsOf coll cid).
  destruct (cardsOf coll cid) as [|f cards]; [done|].
  simpl foldl. rewrite foldl_review_group_step_Some. simpl.
  unfold project_stage. simpl. f_equal.
  by replace (1 + Z.of_nat (length cards)) with (Z.of_nat (S (length cards))) by lia.
Qed.

Lemma countDifficulty_partition (ds : list Difficulty) :
  countDifficulty easy ds + countDifficulty medium ds + countDifficulty hard ds
  = Z.of_nat (length ds).
Proof.
  unfold countDifficulty. induction ds as [|d ds IH]; [done|].
  rewrite !filter_cons.
  destruct d; repeat case_decide; try done; simpl length in *; lia.
Qed.

(** X7: when [Flashcard.getStats] has a result it has exactly one; its
    [total] is the number of cards of the content item, the counts of easy,
    medium and hard cards add up to it, and [totalReviews] is the sum of
    the review counts.  A content item without cards has no result. *)
Theorem getStats_difficulty_partition coll cid :
  (cardsOf coll cid = [] → getStats coll cid = []) ∧
  (∀ s, s ∈ getStats coll cid →
     getStats coll cid = [s] ∧
     total s = Z.of_nat (length (cardsOf coll cid)) ∧
     easyCount s + mediumCount s + hardCount s = total s ∧
     totalReviews s = sumReviewCount (cardsOf coll cid)).
Proof.
  rewrite flashcard_getStats_eq. destruct (cardsOf coll cid) as [|f cards] eqn:E.
  - split; [done|]. intros s H. by apply not_elem_of_nil in H.
  - split; [done|]. intros s H. apply list_elem_of_singleton in H as ->. simpl.
    split_and!; try done.
    rewrite <- fmap_cons, countDifficulty_partition, length_fmap. done.
Qed.

Lemma getStats_difficulty_partition_witness :
  getStats Samples.mixedCards "c9" = [] ∧
  easyCount (mkReviewStats 3 4 1 1 1) + mediumCount (mkReviewStats 3 4 1 1 1)
  + hardCount (mkReviewStats 3 4 1 1 1) = total (mkReviewStats 3 4 1 1 1).
Proof.
  split.
  - apply (getStats_difficulty_partition Samples.mixedCards "c9").
    vm_compute. reflexivity.
  - apply (getStats_difficulty_partition Samples.mixedCards "c1").
    vm_compute. apply list_elem_of_here.
Defined.

Lemma flashcard_getStats_Permutation coll coll' cid :
  cardsOf coll cid ≡ₚ cardsOf coll' cid → getStats coll cid = getStats coll' cid.
Proof.
  intros HP. rewrite !flashcard_getStats_eq.
  destruct (cardsOf coll cid) as [|c docs] eqn:E;
    destruct (cardsOf coll' cid) as [|c' docs'] eqn:E'.
  - done.
  - by apply Permutation_nil_cons in HP.
  - symmetry in HP. by apply Permutation_nil_cons in HP.
  - rewrite <- E, <- E' in *. clear E E'.
    unfold sumReviewCount, countDifficulty.
    rewrite (sum_Permutation reviewCount _ _ HP).
    by rewrite HP.
Qed.

Lemma flashcard_getStats_of_cons coll cid c l :
  cardsOf coll cid ≡ₚ c :: l →
  getStats coll cid =
  [mkReviewStats (Z.of_nat (S (length l))) (reviewCount c + sumReviewCount l)
     (countDifficulty easy (difficulty c :: (difficulty <$> l)))
     (countDifficulty medium (difficulty c :: (difficulty <$> l)))
     (countDifficulty hard (difficulty c :: (difficulty <$> l)))].
Proof.
  intros HP. rewrite flashcard_getStats_eq.
  destruct (cardsOf coll cid) as [|c1 l1] eqn:E.
  { by apply Permutation_nil_cons in HP. }
  rewrite <- E in *. clear E. unfold countDifficulty.
  change (reviewCount c + sumReviewCount l) with (sumReviewCount (c :: l)).
  rewrite <- !fmap_cons. unfold sumReviewCount.
  rewrite (sum_Permutation reviewCount _ _ HP). by rewrite HP.
Qed.

(** The statistics after one card was marked as reviewed. *)
Lemma getStats_markReviewed now coll id f cid :
  coll !! id = Some f →
  getStats (<[id := markReviewed now f]> coll) cid =
  if decide (contentId f = cid) then oneMoreReview <$> getStats coll cid
  else getStats coll cid.
Proof.
  intros Hf. destruct (docs_insert_Some coll id (markReviewed now f) f Hf) as [H1 H2].
  set (rest := filter (fun f => contentId f = cid) (map_to_list (delete id coll)).*2).
  case_decide as Hc.
  - assert (E1 : cardsOf (<[id := markReviewed now f]> coll) cid
                 ≡ₚ markReviewed now f :: rest).
    { unfold cardsOf. rewrite H1, fmap_cons. by rewrite filter_cons_True. }
    assert (E2 : cardsOf coll cid ≡ₚ f :: rest).
    { unfold cardsOf. rewrite H2, fmap_cons. by rewrite filter_cons_True. }
    rewrite (flashcard_getStats_of_cons _ _ _ _ E1), (flashcard_getStats_of_cons _ _ _ _ E2).
    simpl. unfold oneMoreReview. simpl. do 2 f_equal. lia.
  - apply flashcard_getStats_Permutation. unfold cardsOf.
    rewrite H1, H2, !fmap_cons. by rewrite !filter_cons_False.
Qed.

(** *** Mastery in terms of the review count *)

Lemma markReviewed_iter now n f :
  reviewCount (Nat.iter n (markReviewed now) f) = reviewCount f + Z.of_nat n ∧
  difficulty (Nat.iter n (markReviewed now) f) = difficulty f.
Proof.
  induction n as [|n [IH1 IH2]]; simpl; [split; [lia|done]|].
  rewrite IH1, IH2. split; [lia|done].
Qed.

(** X8: the band of a card in terms of its review count: an easy card is
    learning from 2 reviews, proficient from 5 and mastered from 10; a
    medium card from 2, 4 and 7; a hard card from 1, 3 and 5.  Hence after
    [n] more reviews a card is mastered exactly when its review count plus
    [n] has reached 10, 7 or 5. *)
Theorem masteryLevel_thresholds (f : Flashcard) :
  let '(l, p, m) := bandThresholds (difficulty f) in
  (masteryLevel f = mastered ↔ m ≤ reviewCount f) ∧
  (masteryLevel f = proficient ↔ p ≤ reviewCount f < m) ∧
  (masteryLevel f = learning ↔ l ≤ reviewCount f < p) ∧
  (masteryLevel f = new ↔ reviewCount f < l) ∧
  (∀ now n, masteryLevel (Nat.iter n (markReviewed now) f) = mastered
            ↔ m ≤ reviewCount f + Z.of_nat n).
Proof.
  assert (H : ∀ g, difficulty g = difficulty f →
            let '(l, p, m) := bandThresholds (difficulty f) in
            (masteryLevel g = mastered ↔ m ≤ reviewCount g) ∧
            (masteryLevel g = proficient ↔ p ≤ reviewCount g < m) ∧
            (masteryLevel g = learning ↔ l ≤ reviewCount g < p) ∧
            (masteryLevel g = new ↔ reviewCount g < l)).
  { intros g Hg. rewrite FlashcardsProps.masteryLevel_Z. cbv zeta. rewrite Hg.
    destruct (difficulty f); simpl; repeat case_decide; split_and!; split;
      intros; try done; try lia. }
  pose proof (H f eq_refl) as Hf.
  destruct (bandThresholds (difficulty f)) as [[l p] m] eqn:E.
  destruct Hf as (H1 & H2 & H3 & H4). split_and!; try done.
  intros now n. destruct (markReviewed_iter now n f) as [Hrc Hd].
  destruct (H _ Hd) as [-> _]. by rewrite Hrc.
Qed.

End FlashcardModelProps.

(** ** Further properties of the quiz model *)
Module QuizModelProps.
Import Quizzes Spec Facts NumberFacts CollectionFacts.

(** *** The virtuals of a quiz *)

(** X9: the completion rate is an integer from 0 to 100; it is 0 for a
    quiz without attempts and for one whose attempts all miss the passing
    score, and 100 when there are attempts and all reach the passing
    score. *)
Theorem completionRate_bounds (quiz : Quiz) :
  0 ≤ completionRate quiz ≤ 100 ∧
  (attempts quiz = [] → completionRate quiz = 0) ∧
  (Forall (fun attempt => score attempt < passingScore quiz) (attempts quiz) →
   completionRate quiz = 0) ∧
  (attempts quiz ≠ [] →
   Forall (fun attempt => passingScore quiz ≤ score attempt) (attempts quiz) →
   completionRate quiz = 100).
Proof.
  unfold completionRate. destruct (decide _) as [Hn|Hn].
  - split_and!; try done. intros Hne. by destruct (attempts quiz).
  - cbv zeta.
    set (passed := filter (fun attempt => passingScore quiz ≤ score attempt)
                     (attempts quiz)).
    pose proof (length_filter (fun attempt => passingScore quiz ≤ score attempt)
                  (attempts quiz)) as Hle. fold passed in Hle.
    rewrite Math_round_ratio by lia.
    destruct (Math_round_ratio_bounds (Z.of_nat (length passed))
                (Z.of_nat (length (attempts quiz))) ltac:(lia) ltac:(lia))
      as (Hb & H100 & H0).
    split_and!; [lia | lia | | | ].
    + intros E. by rewrite E in Hn.
    + intros Hall. apply H0.
      assert (passed = []) as ->; [|done].
      unfold passed. clear -Hall. induction Hall as [|a l Ha _ IH]; [done|].
      rewrite filter_cons_False by lia. done.
    + intros _ Hall. apply H100. unfold passed.
      by rewrite (filter_Forall_id _ _ Hall).
Qed.

Lemma completionRate_bounds_witness :
  completionRate
    (mkQuiz "c1" "Sample" "" [] None 70
       [mkQuizAttempt "a1" "u1" 75 [] 0 10; mkQuizAttempt "a2" "u1" 100 [] 0 10] 0 0)
  = 100.
Proof.
  apply completionRate_bounds.
  - discriminate.
  - repeat constructor; simpl; lia.
Defined.

Lemma foldl_score_sum (l : list QuizAttempt) (acc : Z) :
  foldl (fun sum attempt => sum + score attempt) acc l
  = acc + foldr (fun attempt sum => score attempt + sum) 0 l.
Proof.
  revert acc. induction l as [|a l IH]; intros acc; simpl; [lia|].
  rewrite IH. lia.
Qed.

Lemma score_sum_bounds (lo hi : Z) (l : list QuizAttempt) :
  Forall (fun attempt => lo ≤ score attempt ≤ hi) l →
  Z.of_nat (length l) * lo ≤ foldr (fun attempt sum => score attempt + sum) 0 l
  ≤ Z.of_nat (length l) * hi.
Proof. induction 1 as [|a l Ha _ IH]; simpl length; simpl foldr; lia. Qed.

(** X10: the average score is [null] exactly for a quiz without attempts.
    Otherwise it is a number of hundredths, at most half a hundredth away
    from the mean of the scores, and it lies between any two integers that
    bound all the scores. *)
Theorem averageScore_mean (quiz : Quiz) :
  (averageScore quiz = None ↔ attempts quiz = []) ∧
  (∀ avg, averageScore quiz = Some avg →
     let n := Z.of_nat (length (attempts quiz)) in
     let total := foldr (fun attempt sum => score attempt + sum) 0 (attempts quiz) in
     ∃ hundredths : Z,
       avg = (inject_Z hundredths / 100)%Q ∧
       2 * n * hundredths - n ≤ 200 * total < 2 * n * hundredths + n ∧
       ∀ lo hi, Forall (fun attempt => lo ≤ score attempt ≤ hi) (attempts quiz) →
                100 * lo ≤ hundredths ≤ 100 * hi).
Proof.
  unfold averageScore. destruct (decide _) as [Hn|Hn].
  - split; [|done]. split; [|done]. intros _. by destruct (attempts quiz).
  - split; [split; [done|]; intros E; by rewrite E in Hn|].
    intros avg [= <-]. cbv zeta. rewrite foldl_score_sum, Z.add_0_l.
    set (n := Z.of_nat (length (attempts quiz))).
    set (total := foldr _ 0 (attempts quiz)).
    assert (Hpos : 0 < n) by (unfold n; lia).
    rewrite Math_round_ratio by done.
    eexists. split; [reflexivity|].
    pose proof (Z.div_mod (200 * total + n) (2 * n) ltac:(lia)) as Hdm.
    pose proof (Z.mod_pos_bound (200 * total + n) (2 * n) ltac:(lia)) as Hmb.
    split; [nia|].
    intros lo hi Hall. pose proof (score_sum_bounds lo hi _ Hall) as Hs.
    fold n total in Hs. split.
    + apply Z.div_le_lower_bound; [lia|]. nia.
    + cut ((200 * total + n) `div` (2 * n) < 100 * hi + 1); [lia|].
      apply Z.div_lt_upper_bound; [lia|]. nia.
Qed.

Lemma averageScore_mean_witness :
  ∃ hundredths : Z,
    (inject_Z 8750 / 100)%Q = (inject_Z hundredths / 100)%Q ∧
    2 * 2 * hundredths - 2 ≤ 200 * 175 < 2 * 2 * hundredths + 2 ∧
    ∀ lo hi,
      Forall (fun attempt => lo ≤ score attempt ≤ hi)
        [mkQuizAttempt "a1" "u1" 75 [] 0 10; mkQuizAttempt "a2" "u1" 100 [] 0 10] →
      100 * lo ≤ hundredths ≤ 100 * hi.
Proof.
  destruct (averageScore_mean
              (mkQuiz "c1" "Sample" "" [] None 70
                 [mkQuizAttempt "a1" "u1" 75 [] 0 10;
                  mkQuizAttempt "a2" "u1" 100 [] 0 10] 0 0)) as [_ H].
  apply (H (inject_Z 8750 / 100)%Q). vm_compute. reflexivity.
Defined.

(** *** Scoring *)

Lemma find_id_flag (answers answers' : list QuizAnswer) (id : string) :
  (fun a => (questionId a, isCorrect a)) <$> answers
  = (fun a => (questionId a, isCorrect a)) <$> answers' →
  isCorrect <$> List.find (fun a => String.eqb (questionId a) id) answers
  = isCorrect <$> List.find (fun a => String.eqb (questionId a) id) answers'.
Proof.
  revert answers'. induction answers as [|a l IH]; intros [|a' l'] E;
    try done.
  rewrite !fmap_cons in E. injection E as Hid Hflag Hrest. simpl.
  rewrite Hid. destruct (String.eqb (questionId a') id); simpl.
  - by rewrite Hflag.
  - by apply IH.
Qed.

Lemma score_step_id_flag answers answers' acc question question' :
  (fun a => (questionId a, isCorrect a)) <$> answers
  = (fun a => (questionId a, isCorrect a)) <$> answers' →
  question_id question = question_id question' →
  points question = points question' →
  score_step answers acc question = score_step answers' acc question'.
Proof.
  intros E Hid Hp. unfold score_step. rewrite <- Hid, <- Hp.
  pose proof (find_id_flag answers answers' (question_id question) E) as H.
  destruct (List.find _ answers) as [a|], (List.find _ answers') as [a'|];
    simplify_eq/=; try done.
  by rewrite H.
Qed.

(** X11: the score depends on the identifiers and point weights of the
    questions and on the identifiers and [isCorrect] flags of the submitted
    answers, and on nothing else: the answer given is never compared with
    [correctAnswer], and the [points] that the submission claims are not
    used. *)
Theorem calculateScore_trusts_flags quiz quiz' answers answers' :
  (fun x => (question_id x, points x)) <$> questions quiz
  = (fun x => (question_id x, points x)) <$> questions quiz' →
  (fun a => (questionId a, isCorrect a)) <$> answers
  = (fun a => (questionId a, isCorrect a)) <$> answers' →
  calculateScore quiz answers = calculateScore quiz' answers'.
Proof.
  intros Hq Ha. unfold calculateScore.
  cut (∀ acc, foldl (score_step answers) acc (questions quiz)
              = foldl (score_step answers') acc (questions quiz')).
  { by intros ->. }
  revert Hq. generalize (questions quiz) (questions quiz').
  induction l as [|x l IH]; intros [|x' l'] E acc; simplify_eq/=; [done|].
  rewrite (score_step_id_flag answers answers' acc x x') by done.
  by apply IH.
Qed.

Lemma calculateScore_trusts_flags_witness :
  calculateScore Samples.quiz13 [Samples.right2]
  = calculateScore
      (mkQuiz "c1" "Sample" ""
         [mkQuizQuestion "q1" "2 + 2 = 4" true_false ["true"; "false"] (Str "false") "" 1;
          mkQuizQuestion "q2" "Capital of France" short_answer [] (Str "Lyon") "" 3]
         None 70 [] 1000 1000)
      [mkQuizAnswer "q2" (Str "Rome") true 0].
Proof.
  apply calculateScore_trusts_flags; reflexivity.
Defined.

(** The sum of the weights of the questions that satisfy [P] grows with
    [P]. *)
Lemma earned_mono (P P' : QuizQuestion → Prop)
    `{!∀ x, Decision (P x), !∀ x, Decision (P' x)} qs :
  Forall (fun question => (0 <= points question)%Q) qs →
  (∀ question, question ∈ qs → P question → P' question) →
  (sumQ (points <$> filter P qs) <= sumQ (points <$> filter P' qs))%Q.
Proof.
  induction 1 as [|question qs Hq _ IH]; intros Himp.
  - rewrite !filter_nil. apply Qle_refl.
  - assert (IH' := IH (fun x Hx => Himp x (list_elem_of_further _ _ _ Hx))).
    rewrite !filter_cons.
    destruct (decide (P question)) as [HP|HP].
    + rewrite decide_True by (apply Himp; [apply list_elem_of_here|done]).
      rewrite !fmap_cons. unfold sumQ in *. simpl.
      by apply Qplus_le_compat; [apply Qle_refl|].
    + destruct (decide (P' question)); [|done].
      rewrite fmap_cons. unfold sumQ in *. simpl.
      rewrite <- (Qplus_0_l (foldr Qplus 0%Q (points <$> filter P qs))).
      by apply Qplus_le_compat.
Qed.

Lemma Math_round_mono (x y : Q) : (x <= y)%Q → Math_round x ≤ Math_round y.
Proof.
  intros H. unfold Math_round. apply Qfloor_resp_le.
  by apply Qplus_le_compat; [|apply Qle_refl].
Qed.

Lemma calculateScore_range quiz answers :
  nonnegPoints quiz → 0 ≤ calculateScore quiz answers ≤ 100.
Proof.
  intros Hnn. destruct (QuizzesProps.nonneg_totalPoints quiz answers Hnn) as [He Het].
  destruct (QuizzesProps.calculateScore_cases quiz answers) as [[Hlt ->]|[Hle ->]]; [|lia].
  destruct (QuizzesProps.percentage_bounds _ _ He Het Hlt) as [H0 H100].
  by apply QuizzesProps.Math_round_bounds.
Qed.

(** X12: with point weights that are not negative, a submission in which
    at least the same questions are awarded scores at least as much. *)
Theorem calculateScore_monotone quiz answers answers' :
  nonnegPoints quiz →
  (∀ question, question ∈ questions quiz →
     awarded answers question → awarded answers' question) →
  calculateScore quiz answers ≤ calculateScore quiz answers'.
Proof.
  intros Hnn Himp.
  destruct (QuizzesProps.calculateScore_cases quiz answers) as [[Hlt ->]|[Hle ->]].
  - destruct (QuizzesProps.calculateScore_cases quiz answers') as [[_ ->]|[Hle _]].
    + apply Math_round_mono. apply Qmult_le_compat_r; [|done].
      apply Qmult_le_compat_r; [|by apply Qlt_le_weak, Qinv_lt_0_compat].
      unfold earnedPoints. by apply earned_mono.
    + exfalso. by apply (Qlt_not_le _ _ Hlt).
  - by apply calculateScore_range.
Qed.

Lemma calculateScore_monotone_witness :
  calculateScore Samples.quiz13 [Samples.wrong1; Samples.right2]
  ≤ calculateScore Samples.quiz13
      [mkQuizAnswer "q1" (Str "true") true 1; Samples.right2].
Proof.
  apply calculateScore_monotone.
  - repeat constructor; by vm_compute.
  - intros question Hq (a & Ha & Hc).
    apply elem_of_cons in Hq as [->|Hq].
    + vm_compute in Ha. by simplify_eq.
    + apply list_elem_of_singleton in Hq as ->. exists Samples.right2.
      split; [vm_compute; reflexivity | reflexivity].
Defined.

Lemma NoDup_fmap_eq {A B} (f : A → B) (l : list A) x y :
  NoDup (f <$> l) → x ∈ l → y ∈ l → f x = f y → x = y.
Proof.
  induction l as [|a l IH]; intros Hnd Hx Hy E; [by apply not_elem_of_nil in Hx|].
  rewrite fmap_cons in Hnd. apply NoDup_cons in Hnd as [Ha Hnd].
  apply elem_of_cons in Hx as [->|Hx]; apply elem_of_cons in Hy as [->|Hy].
  - done.
  - destruct Ha. rewrite E. by apply list_elem_of_fmap_2.
  - destruct Ha. rewrite <- E. by apply list_elem_of_fmap_2.
  - by apply IH.
Qed.

Lemma find_unique {A} (p : A → bool) (l : list A) (a : A) :
  (∀ x, x ∈ l → p x = true → x = a) → a ∈ l → p a = true → List.find p l = Some a.
Proof.
  induction l as [|b l IH]; intros Hu Ha Hp; [by apply not_elem_of_nil in Ha|].
  simpl. destruct (p b) eqn:Eb.
  - f_equal. apply Hu; [apply list_elem_of_here|done].
  - apply IH; [|..|done].
    + intros x Hx. apply Hu. by apply list_elem_of_further.
    + apply elem_of_cons in Ha as [->|Ha]; [congruence|done].
Qed.

Lemma find_Permutation {A B} (f : A → B) (k : B) (p : A → bool) (l l' : list A) :
  (∀ a, p a = true ↔ f a = k) →
  NoDup (f <$> l) → l ≡ₚ l' →
  List.find p l = List.find p l'.
Proof.
  intros Hpk Hnd HP.
  destruct (List.find p l) as [a|] eqn:E.
  - apply find_some in E as [Hin Hp]. apply list_elem_of_In in Hin.
    symmetry. apply find_unique; [|by rewrite <- HP|done].
    intros x Hx Hpx. rewrite <- HP in Hx.
    apply (NoDup_fmap_eq f l); [done..|].
    apply Hpk in Hp, Hpx. congruence.
  - destruct (List.find p l') as [a'|] eqn:E'; [|done].
    apply find_some in E' as [Hin Hp]. apply list_elem_of_In in Hin.
    rewrite <- HP in Hin. apply list_elem_of_In in Hin.
    by rewrite (find_none _ _ E _ Hin) in Hp.
Qed.

(** X13: when no two submitted answers carry the same question identifier,
    the score does not depend on the order of the answers. *)
Theorem calculateScore_order_independent quiz answers answers' :
  NoDup (questionId <$> answers) →
  answers ≡ₚ answers' →
  calculateScore quiz answers = calculateScore quiz answers'.
Proof.
  intros Hnd HP. apply QuizzesProps.calculateScore_ext. intros question _.
  unfold matchingAnswer.
  apply (find_Permutation questionId (question_id question)); [|done..].
  intros a. apply String.eqb_eq.
Qed.

Lemma calculateScore_order_independent_witness :
  calculateScore Samples.quiz13 [Samples.wrong1; Samples.right2]
  = calculateScore Samples.quiz13 [Samples.right2; Samples.wrong1].
Proof.
  apply calculateScore_order_independent.
  - apply (bool_decide_unpack _). vm_compute. exact I.
  - apply Permutation_swap.
Defined.

(** *** Statistics of the quizzes of a content item *)

Lemma foldl_stats_step_Some a b c l :
  foldl stats_step (Some (mkQuizStats a b c None)) l =
  Some (mkQuizStats (a + Z.of_nat (length l)) (b + sumAttempts l)
          (c + sumQuestions l) None).
Proof.
  revert a b c. induction l as [|quiz l IH]; intros a b c; simpl.
  - by rewrite !Z.add_0_r.
  - rewrite IH. simpl. do 2 f_equal; lia.
Qed.

Lemma quiz_getStats_eq coll cid :
  getStats coll cid =
  match quizzesOf coll cid with
  | [] => []
  | l => [mkQuizStats (Z.of_nat (length l)) (sumAttempts l) (sumQuestions l) None]
  end.
Proof.
  unfold getStats. fold (quizzesOf coll cid).
  destruct (quizzesOf coll cid) as [|quiz l]; [done|].
  simpl foldl. rewrite foldl_stats_step_Some. simpl. do 2 f_equal.
  by replace (1 + Z.of_nat (length l)) with (Z.of_nat (S (length l))) by lia.
Qed.

Lemma quiz_getStats_of_cons coll cid quiz l :
  quizzesOf coll cid ≡ₚ quiz :: l →
  getStats coll cid =
  [mkQuizStats (Z.of_nat (S (length l)))
     (Z.of_nat (length (attempts quiz)) + sumAttempts l)
     (Z.of_nat (length (questions quiz)) + sumQuestions l) None].
Proof.
  intros HP. rewrite quiz_getStats_eq.
  destruct (quizzesOf coll cid) as [|q1 l1] eqn:E.
  { by apply Permutation_nil_cons in HP. }
  rewrite <- E in *. clear E.
  change (Z.of_nat (length (attempts quiz)) + sumAttempts l)
    with (sumAttempts (quiz :: l)).
  change (Z.of_nat (length (questions quiz)) + sumQuestions l)
    with (sumQuestions (quiz :: l)).
  unfold sumAttempts, sumQuestions.
  rewrite (sum_Permutation (fun quiz => Z.of_nat (length (attempts quiz))) _ _ HP).
  rewrite (sum_Permutation (fun quiz => Z.of_nat (length (questions quiz))) _ _ HP).
  by rewrite HP.
Qed.

Lemma quiz_getStats_Permutation coll coll' cid :
  quizzesOf coll cid ≡ₚ quizzesOf coll' cid → getStats coll cid = getStats coll' cid.
Proof.
  intros HP. destruct (quizzesOf coll' cid) as [|quiz l] eqn:E.
  - rewrite !quiz_getStats_eq, E. apply Permutation_nil_r in HP. by rewrite HP.
  - rewrite (quiz_getStats_of_cons _ _ _ _ HP). symmetry. apply quiz_getStats_of_cons.
    by rewrite E.
Qed.

(** The statistics after an attempt was appended to one quiz. *)
Lemma getStats_addAttempt newId now coll id quiz quiz' user answers timeSpent cid :
  coll !! id = Some quiz →
  addAttempt newId now quiz user answers timeSpent = Some quiz' →
  getStats (<[id := quiz']> coll) cid =
  if decide (contentId quiz = cid) then oneMoreAttempt <$> getStats coll cid
  else getStats coll cid.
Proof.
  intros Hq Ha. destruct (docs_insert_Some coll id quiz' quiz Hq) as [H1 H2].
  destruct (RoutesProps.addAttempt_Some _ _ _ _ _ _ _ Ha) as [Hatt Hqs].
  assert (Hcid : contentId quiz' = contentId quiz).
  { unfold addAttempt in Ha. cbv zeta in Ha. case_decide; [|done].
    by injection Ha as <-. }
  set (rest := filter (fun quiz => contentId quiz = cid) (map_to_list (delete id coll)).*2).
  case_decide as Hc.
  - assert (E1 : quizzesOf (<[id := quiz']> coll) cid ≡ₚ quiz' :: rest).
    { unfold quizzesOf. rewrite H1, fmap_cons. rewrite filter_cons_True; [done|].
      simpl. congruence. }
    assert (E2 : quizzesOf coll cid ≡ₚ quiz :: rest).
    { unfold quizzesOf. rewrite H2, fmap_cons. by rewrite filter_cons_True. }
    rewrite (quiz_getStats_of_cons _ _ _ _ E1), (quiz_getStats_of_cons _ _ _ _ E2).
    simpl. unfold oneMoreAttempt. simpl. rewrite Hatt, Hqs, length_app. simpl.
    do 2 f_equal. lia.
  - apply quiz_getStats_Permutation. unfold quizzesOf.
    rewrite H1, H2, !fmap_cons.
    rewrite !filter_cons_False; [done|done|simpl; congruence].
Qed.

(** [save()] accepts the attempt exactly when the time spent and the points
    of the answers are not negative: the score never is. *)
Lemma addAttempt_is_Some newId now quiz user answers timeSpent :
  nonnegPoints quiz →
  is_Some (addAttempt newId now quiz user answers timeSpent) ↔
  0 ≤ timeSpent ∧ Forall (fun a => (0 <= answer_points a)%Q) answers.
Proof.
  intros Hnn. pose proof (calculateScore_range quiz answers Hnn) as Hr.
  unfold addAttempt. cbv zeta. case_decide as Hv.
  - split; [|by eexists]. intros _. by destruct Hv as (_ & ? & ?).
  - split; [by intros [? ?]|]. intros [? ?]. destruct Hv.
    unfold validAttempt. simpl. split_and!; [lia|done|done].
Qed.

End QuizModelProps.

(** ** Further properties of the request handlers *)
Module HandlerProps.
Import Routes Spec Facts NumberFacts CollectionFacts.

Lemma findOwnedContent_Some db cid user :
  is_Some (findOwnedContent db cid user) ↔ owns db user cid.
Proof.
  unfold findOwnedContent, owns. destruct (contents db !! cid) as [c|].
  - case_decide; split.
    + intros _. by exists c.
    + by eexists.
    + by intros [? ?].
    + intros (c' & [= <-] & ?). done.
  - split; [by intros [? ?]|]. by intros (? & ? & ?).
Qed.

Lemma elem_of_limit {A} (n : nat) (l : list A) x :
  x ∈ Flashcards.limit_ n l → x ∈ l.
Proof.
  destruct n; simpl; [done|]. intros H. apply elem_of_take in H as (i & Hi & _).
  apply list_elem_of_lookup. by exists i.
Qed.

(** *** Submitting an attempt *)

(** X14: for a quiz whose point weights are not negative, the submission
    of an attempt succeeds exactly when the time spent is not negative, the
    quiz exists, the caller owns its content and no answer claims negative
    points.  Otherwise it fails: with 400 when the time spent is negative,
    else with 404 when the quiz is missing, else with 403 when the content
    is not the caller's. *)
Theorem attemptRoute_succeeds_iff newId now db user id answers timeSpent :
  (∀ quiz, quizzes db !! id = Some quiz → nonnegPoints quiz) →
  let out := attemptRoute newId now db user id answers timeSpent in
  ((∃ data, out.2 = Ok data) ↔
     0 ≤ timeSpent ∧
     Forall (fun a => (0 <= Quizzes.answer_points a)%Q) answers ∧
     ∃ quiz, quizzes db !! id = Some quiz ∧ owns db user (Quizzes.contentId quiz)) ∧
  (timeSpent < 0 → out.2 = Err 400 "Validation failed") ∧
  (0 ≤ timeSpent → quizzes db !! id = None → out.2 = Err 404 "Quiz not found") ∧
  (∀ quiz, 0 ≤ timeSpent → quizzes db !! id = Some quiz →
     ¬ owns db user (Quizzes.contentId quiz) → out.2 = Err 403 "Access denied").
Proof.
  intros Hnn. cbv zeta. unfold attemptRoute.
  destruct (decide (timeSpent < 0)) as [Hneg|Hpos].
  { split_and!; try done; try lia. split; [by intros [? ?]|]. intros [? _]. lia. }
  destruct (quizzes db !! id) as [quiz|] eqn:Hq.
  2:{ split_and!; try done. split; [by intros [? ?]|]. by intros (_ & _ & ? & ? & _). }
  specialize (Hnn quiz eq_refl).
  pose proof (findOwnedContent_Some db (Quizzes.contentId quiz) user) as Hown.
  pose proof (QuizModelProps.addAttempt_is_Some newId now quiz user answers timeSpent Hnn)
    as Hadd.
  destruct (findOwnedContent db (Quizzes.contentId quiz) user) as [c|].
  - destruct (Quizzes.addAttempt newId now quiz user answers timeSpent) as [quiz'|].
    + split_and!; try done.
      * split; [|by eexists]. intros _. destruct Hadd as [Hadd _].
        destruct (Hadd ltac:(by eexists)) as [? ?]. split_and!; try done.
        exists quiz. split; [done|]. apply Hown. by eexists.
      * intros q _ [= <-] Hno. destruct Hno. apply Hown. by eexists.
    + split_and!; try done.
      * split; [by intros [? ?]|]. intros (? & ? & _).
        destruct Hadd as [_ Hadd]. by destruct (Hadd ltac:(done)).
      * intros q _ [= <-] Hno. destruct Hno. apply Hown. by eexists.
  - split_and!; try done. split; [by intros [? ?]|].
    intros (_ & _ & q & [= <-] & Hq'). apply Hown in Hq'. by destruct Hq'.
Qed.

Lemma attemptRoute_succeeds_iff_witness :
  (attemptRoute "a1" Samples.sampleNow Samples.sampleDB "u2" "z1"
     [Samples.right2] 60).2 = Err 403 "Access denied".
Proof.
  destruct (attemptRoute_succeeds_iff "a1" Samples.sampleNow Samples.sampleDB "u2" "z1"
              [Samples.right2] 60) as (_ & _ & _ & H).
  - intros quiz Hq. assert (quiz = Samples.quiz13) as ->.
    { apply (inj Some). rewrite <- Hq. vm_compute. reflexivity. }
    repeat constructor; by vm_compute.
  - apply (H Samples.quiz13).
    + lia.
    + vm_compute. reflexivity.
    + intros (c & Hc & Hu). vm_compute in Hc. injection Hc as <-. discriminate Hu.
Defined.

(** X15: a successful submission adds 1 to [totalAttempts] of the
    statistics of the content item of the quiz and changes nothing else in
    them; the statistics of other content items stay as they are, and so do
    all statistics when the submission fails. *)
Theorem attemptRoute_updates_stats newId now db user id answers timeSpent cid :
  let out := attemptRoute newId now db user id answers timeSpent in
  (∀ data quiz, out.2 = Ok data → quizzes db !! id = Some quiz →
     Quizzes.getStats (quizzes out.1) cid =
     if decide (Quizzes.contentId quiz = cid)
     then oneMoreAttempt <$> Quizzes.getStats (quizzes db) cid
     else Quizzes.getStats (quizzes db) cid) ∧
  ((∀ data, out.2 ≠ Ok data) →
     Quizzes.getStats (quizzes out.1) cid = Quizzes.getStats (quizzes db) cid).
Proof.
  cbv zeta.
  destruct (RoutesProps.attemptRoute_cases newId now db user id answers timeSpent)
    as [(q & q' & Hid & Ha & Hout)|[Hdb Hfail]].
  - rewrite Hout. simpl. split.
    + intros data quiz _ Hq. rewrite Hid in Hq. injection Hq as <-.
      by apply (QuizModelProps.getStats_addAttempt newId now _ id q q' user answers timeSpent).
    + intros Hfail. by edestruct Hfail.
  - rewrite Hdb. split; [|done]. intros data quiz Hok. by destruct (Hfail data).
Qed.

Lemma attemptRoute_updates_stats_witness :
  Quizzes.getStats
    (quizzes (attemptRoute "a1" Samples.sampleNow Samples.sampleDB "u1" "z1"
                [Samples.right2] 60).1) "c1"
  = oneMoreAttempt <$> Quizzes.getStats (quizzes Samples.sampleDB) "c1".
Proof.
  destruct (attemptRoute_updates_stats "a1" Samples.sampleNow Samples.sampleDB "u1" "z1"
              [Samples.right2] 60 "c1") as [H _].
  apply (H (mkAttemptData 75 1) Samples.quiz13).
  - vm_compute. reflexivity.
  - vm_compute. reflexivity.
Defined.

(** *** Reviewing a card *)

(** X16: a successful review adds 1 to [totalReviews] of the statistics of
    the content item of the card and leaves its [total] and the counts by
    difficulty as they are; the statistics of other content items do not
    change. *)
Theorem reviewRoute_updates_stats now db user id cid :
  ∀ data f,
    (reviewRoute now db user id).2 = Ok data →
    flashcards db !! id = Some f →
    Flashcards.getStats (flashcards (reviewRoute now db user id).1) cid =
    if decide (Flashcards.contentId f = cid)
    then oneMoreReview <$> Flashcards.getStats (flashcards db) cid
    else Flashcards.getStats (flashcards db) cid.
Proof.
  intros data f Hok Hf. unfold reviewRoute in *. rewrite Hf in *.
  destruct (findOwnedContent db (Flashcards.contentId f) user); [|done].
  simpl. by apply FlashcardModelProps.getStats_markReviewed.
Qed.

Lemma reviewRoute_updates_stats_witness :
  Flashcards.getStats
    (flashcards (reviewRoute Samples.sampleNow Samples.sampleDB "u1" "f1").1) "c1"
  = oneMoreReview <$> Flashcards.getStats (flashcards Samples.sampleDB) "c1".
Proof.
  apply (reviewRoute_updates_stats Samples.sampleNow Samples.sampleDB "u1" "f1" "c1"
           (mkReviewData "f1" 1 (Some Samples.sampleNow) Flashcards.new)
           (Samples.freshCard "first")).
  - vm_compute. reflexivity.
  - vm_compute. reflexivity.
Defined.

(** X17: after a successful review at [now] the card is in no list of due
    cards that is asked for within the next 24 hours, whatever the limit;
    later than that it passes the filter of [getForReview] again. *)
Theorem reviewed_card_rests_a_day now db user id :
  ∀ data,
    (reviewRoute now db user id).2 = Ok data →
    let db' := (reviewRoute now db user id).1 in
    (∀ t cid limit f, t ≤ now + 24 * 60 * 60 * 1000 →
       (id, f) ∉ Flashcards.getForReview (flashcards db') t cid limit) ∧
    (∀ t, now + 24 * 60 * 60 * 1000 < t →
       ∃ f, flashcards db' !! id = Some f ∧
            Flashcards.reviewQuery (Flashcards.contentId f) (t - 24 * 60 * 60 * 1000) f).
Proof.
  intros data Hok. cbv zeta. unfold reviewRoute in *.
  destruct (flashcards db !! id) as [f0|] eqn:Hf; [|done].
  destruct (findOwnedContent db (Flashcards.contentId f0) user); [|done].
  simpl. split.
  - intros t cid limit f Ht Hin.
    rewrite FlashcardsProps.getForReview_unfold in Hin.
    apply elem_of_limit, FlashcardsProps.elem_of_selected in Hin as (Hl & _ & Hdue).
    simpl in Hl. rewrite lookup_insert_eq in Hl. injection Hl as <-.
    destruct Hdue as [Hnone|(t' & Ht' & Hlt)]; simpl in *; [done|].
    injection Ht' as <-. lia.
  - intros t Ht. exists (Flashcards.markReviewed now f0).
    split; [apply lookup_insert_eq|]. unfold Flashcards.reviewQuery. simpl.
    split; [done|lia].
Qed.

Lemma reviewed_card_rests_a_day_witness :
  ("f1", Flashcards.markReviewed Samples.sampleNow (Samples.freshCard "first")) ∉
  Flashcards.getForReview
    (flashcards (reviewRoute Samples.sampleNow Samples.sampleDB "u1" "f1").1)
    (Samples.sampleNow + 1000) "c1" None.
Proof.
  destruct (reviewed_card_rests_a_day Samples.sampleNow Samples.sampleDB "u1" "f1"
              (mkReviewData "f1" 1 (Some Samples.sampleNow) Flashcards.new)) as [H _].
  - vm_compute. reflexivity.
  - apply H. vm_compute. discriminate.
Defined.

(** *** Listing cards *)

(** X18: the two handlers that list the cards of a content item answer
    with cards only to the owner of the content item, and only with stored
    cards of that item; for anyone else, and for a content item that does
    not exist, the answer is the same 404. *)
Theorem card_lists_owner_only now db user cid difficulty tags limit :
  (∀ cards, reviewListRoute now db user cid limit = Ok cards →
     owns db user cid ∧
     Forall (fun d => flashcards db !! d.1 = Some d.2 ∧ Flashcards.contentId d.2 = cid)
       cards) ∧
  (∀ cards, flashcardsRoute db user cid difficulty tags limit = Ok cards →
     owns db user cid ∧
     Forall (fun d => flashcards db !! d.1 = Some d.2 ∧ Flashcards.contentId d.2 = cid)
       cards) ∧
  (¬ owns db user cid →
     reviewListRoute now db user cid limit = Err 404 "Content not found" ∧
     flashcardsRoute db user cid difficulty tags limit = Err 404 "Content not found").
Proof.
  pose proof (findOwnedContent_Some db cid user) as Hown.
  unfold reviewListRoute, flashcardsRoute. cbv zeta.
  destruct (findOwnedContent db cid user) as [c|].
  - assert (Ho : owns db user cid) by (apply Hown; by eexists).
    split_and!; [| |done].
    + intros cards [= <-]. split; [done|]. apply Forall_forall. intros [id f] Hin.
      rewrite FlashcardsProps.getForReview_unfold in Hin.
      by apply elem_of_limit, FlashcardsProps.elem_of_selected in Hin as (? & ? & _).
    + intros cards [= <-]. split; [done|]. apply Forall_forall. intros [id f] Hin.
      unfold Flashcards.findByContent in Hin.
      apply elem_of_limit in Hin.
      rewrite merge_sort_Permutation, list_elem_of_filter, elem_of_map_to_list in Hin.
      by destruct Hin as [(? & _) ?].
  - split_and!; try done.
Qed.

Lemma card_lists_owner_only_witness :
  reviewListRoute Samples.sampleNow Samples.sampleDB "u2" "c1" (Some 5%nat)
    = Err 404 "Content not found" ∧
  flashcardsRoute Samples.sampleDB "u2" "c1" None None (Some 5%nat)
    = Err 404 "Content not found".
Proof.
  apply (card_lists_owner_only Samples.sampleNow Samples.sampleDB "u2" "c1"
           None None (Some 5%nat)).
  intros (c & Hc & Hu). vm_compute in Hc. injection Hc as <-. discriminate Hu.
Defined.

(** *** The dashboard *)

Lemma foldl_progress_step_Some g cards :
  foldl progress_step (Some g) cards =
  Some (mkLearningProgress
          (totalFlashcards g + Z.of_nat (length cards))
          (lp_totalReviews g
           + foldr (fun d acc => Flashcards.reviewCount d.2 + acc) 0 cards)
          (masteredCards g + countCards (fun f => 10 ≤ Flashcards.reviewCount f) cards)).
Proof.
  revert g. induction cards as [|d cards IH]; intros [n r m]; simpl.
  - unfold countCards. simpl. by rewrite !Z.add_0_r.
  - rewrite IH. simpl. unfold countCards. rewrite filter_cons. simpl.
    do 2 f_equal; try lia.
    destruct (decide (100 ≤ Flashcards.reviewCount d.2 * 10)),
             (decide (10 ≤ Flashcards.reviewCount d.2)); simpl length; lia.
Qed.

Lemma progress_eq cards :
  default (mkLearningProgress 0 0 0) (foldl progress_step None cards) =
  mkLearningProgress (Z.of_nat (length cards))
    (foldr (fun d acc => Flashcards.reviewCount d.2 + acc) 0 cards)
    (countCards (fun f => 10 ≤ Flashcards.reviewCount f) cards).
Proof.
  destruct cards as [|d cards]; [done|].
  simpl foldl. rewrite foldl_progress_step_Some. simpl.
  unfold countCards. rewrite filter_cons. simpl.
  f_equal; try lia.
  destruct (decide (100 ≤ Flashcards.reviewCount d.2 * 10)),
           (decide (10 ≤ Flashcards.reviewCount d.2)); simpl length; lia.
Qed.

Lemma reviewed_ten_times_mastered (cards : list (ObjectId * Flashcards.Flashcard)) :
  countCards (fun f => 10 ≤ Flashcards.reviewCount f) cards
  ≤ countCards (fun f => Flashcards.masteryLevel f = Flashcards.mastered) cards.
Proof.
  unfold countCards. induction cards as [|d cards IH]; [done|].
  rewrite !filter_cons.
  destruct (decide (10 ≤ Flashcards.reviewCount d.2)) as [H10|H10].
  - rewrite decide_True; [simpl length; lia|].
    rewrite FlashcardsProps.masteryLevel_Z. cbv zeta.
    rewrite decide_True; [done|]. destruct (Flashcards.difficulty d.2); simpl; lia.
  - destruct (decide _); simpl length; lia.
Qed.

(** X19: on the dashboard, [learningProgress] counts the cards of the
    contents of the user and sums their reviews; [masteredCards] is the
    number of those cards with at least 10 reviews, whatever their
    difficulty, each of which has the mastery level mastered, so that it is
    at most the number of mastered cards; a user without cards gets three
    zeros; and the number of due cards shown is the number of due cards of
    the user up to 10, and 10 beyond. *)
Theorem dashboard_progress now db user :
  let cards := flashcardsOfUser db user in
  let progress := dashboardLearningProgress db user in
  totalFlashcards progress = Z.of_nat (length cards) ∧
  lp_totalReviews progress = foldr (fun d acc => Flashcards.reviewCount d.2 + acc) 0 cards ∧
  masteredCards progress = countCards (fun f => 10 ≤ Flashcards.reviewCount f) cards ∧
  masteredCards progress
    ≤ countCards (fun f => Flashcards.masteryLevel f = Flashcards.mastered) cards ∧
  (cards = [] → progress = mkLearningProgress 0 0 0) ∧
  dashboardReviewFlashcards now db user
    = Z.min 10 (countCards (dueQuery (now - 24 * 60 * 60 * 1000)) cards).
Proof.
  cbv zeta. unfold dashboardLearningProgress, dashboardReviewFlashcards.
  rewrite progress_eq. simpl. split_and!; try done.
  - apply reviewed_ten_times_mastered.
  - by intros ->.
  - unfold countCards. rewrite length_take. lia.
Qed.

End HandlerProps.

(** ** Facts about white space and words *)
Module TextFacts.
Import Contents ContentService Spec Facts.

Lemma countWords_wordStarts s : countWords s = Z.of_nat (wordStarts false s).
Proof.
  unfold countWords, split_ws.
  by rewrite (ContentModelProps.split_go_wordStarts false []).
Qed.

Lemma wordStarts_trimStart s : wordStarts false (trimStart s) = wordStarts false s.
Proof.
  induction s as [|c s IH]; [done|]. simpl. destruct (is_space c) eqn:E; [done|].
  simpl. by rewrite E.
Qed.

Lemma startsClean_trimStart s : startsClean (trimStart s).
Proof.
  induction s as [|c s IH]; [done|]. simpl. by destruct (is_space c) eqn:E.
Qed.

Lemma trimStart_clean s : startsClean s → trimStart s = s.
Proof. destruct s as [|c s]; [done|]. simpl. by intros ->. Qed.

(** [trimStart] at the end of a text. *)
Lemma trimStart_snoc s c :
  trimStart (s ++ [c]) =
  match trimStart s with
  | [] => if is_space c then [] else [c]
  | t => t ++ [c]
  end.
Proof.
  induction s as [|a s IH]; simpl; [done|].
  destruct (is_space a); [done|]. done.
Qed.

Lemma trimEnd_cons c s :
  trimEnd (c :: s) =
  match trimEnd s with
  | [] => if is_space c then [] else [c]
  | t => c :: t
  end.
Proof. unfold trimEnd. simpl. by destruct (foldr _ [] s). Qed.

Lemma trimEnd_rev s : rev (trimStart (rev s)) = trimEnd s.
Proof.
  induction s as [|c s IH]; [done|].
  simpl rev. rewrite trimStart_snoc, trimEnd_cons, <- IH.
  destruct (trimStart (rev s)) as [|a t]; simpl.
  - by destruct (is_space c).
  - rewrite rev_app_distr. simpl.
    destruct (rev t ++ [a]) eqn:E; [|done]. by apply app_eq_nil in E as [_ ?].
Qed.

Lemma trim_eq s : trim s = trimEnd (trimStart s).
Proof. unfold trim. apply trimEnd_rev. Qed.

Lemma wordStarts_trimEnd in_word s : wordStarts in_word (trimEnd s) = wordStarts in_word s.
Proof.
  revert in_word. induction s as [|c s IH]; intros in_word; [done|].
  rewrite trimEnd_cons. destruct (trimEnd s) as [|a t] eqn:E.
  - destruct (is_space c) eqn:Ec; simpl; rewrite Ec.
    + by rewrite <- IH.
    + by rewrite <- IH.
  - simpl. destruct (is_space c); by rewrite <- IH.
Qed.

Lemma countWords_trim s : countWords (trim s) = countWords s.
Proof.
  by rewrite !countWords_wordStarts, trim_eq, wordStarts_trimEnd, wordStarts_trimStart.
Qed.

Lemma startsClean_trimEnd s : startsClean s → startsClean (trimEnd s).
Proof.
  destruct s as [|c s]; [done|]. intros Hc. simpl in Hc.
  rewrite trimEnd_cons. destruct (trimEnd s); simpl; by rewrite ?Hc.
Qed.

Lemma trimEnd_idemp s : trimEnd (trimEnd s) = trimEnd s.
Proof.
  induction s as [|c s IH]; [done|]. rewrite trimEnd_cons.
  destruct (trimEnd s) as [|a t] eqn:E.
  - destruct (is_space c) eqn:Ec; [done|]. simpl. by rewrite Ec.
  - rewrite trimEnd_cons, IH. done.
Qed.

Lemma trim_idemp s : trim (trim s) = trim s.
Proof.
  rewrite !trim_eq.
  rewrite (trimStart_clean (trimEnd (trimStart s)))
    by apply startsClean_trimEnd, startsClean_trimStart.
  apply trimEnd_idemp.
Qed.

(** *** Words *)

Lemma words_wordsFrom_go in_sep cur s :
  (in_sep = true → cur = []) →
  filter (fun word : list codepoint => (0 < length word)%nat) (split_go in_sep cur s)
  = wordsFrom cur s.
Proof.
  assert (Hrev : ∀ (a : codepoint) l, (0 < length (rev (a :: l)))%nat).
  { intros a l. rewrite length_rev. simpl. lia. }
  revert in_sep cur. induction s as [|c s IH]; intros in_sep cur Hsep;
    cbn [split_go wordsFrom].
  - destruct cur as [|a cur].
    + by rewrite filter_cons_False by (simpl; lia).
    + by rewrite filter_cons_True by apply Hrev.
  - destruct (is_space c).
    + destruct in_sep.
      * rewrite (Hsep eq_refl). by apply IH.
      * destruct cur as [|a cur].
        -- rewrite filter_cons_False by (simpl; lia). by apply IH.
        -- rewrite filter_cons_True by apply Hrev. f_equal. by apply IH.
    + by apply IH.
Qed.

Lemma words_wordsFrom s : words s = wordsFrom [] s.
Proof. unfold words, split_ws. by apply words_wordsFrom_go. Qed.

(** The words hold no white space and are not empty. *)
Lemma wordsFrom_clean cur s :
  Forall (fun c => is_space c = false) cur →
  Forall (fun w => w ≠ [] ∧ Forall (fun c => is_space c = false) w) (wordsFrom cur s).
Proof.
  assert (Hw : ∀ a l, Forall (fun c => is_space c = false) (a :: l) →
                rev (a :: l) ≠ [] ∧ Forall (fun c => is_space c = false) (rev (a :: l))).
  { intros a l H. split.
    - simpl. intros E. by apply app_eq_nil in E as [_ ?].
    - apply Forall_forall. intros x Hx. apply list_elem_of_In, in_rev in Hx.
      apply list_elem_of_In in Hx. by eapply Forall_forall in H. }
  revert cur. induction s as [|c s IH]; intros cur Hcur; cbn [wordsFrom].
  - destruct cur; [constructor|]. constructor; [by apply Hw|constructor].
  - destruct (is_space c) eqn:Ec.
    + destruct cur; [by apply IH|]. constructor; [by apply Hw|by apply IH].
    + apply IH. by constructor.
Qed.

Lemma joinWords_cons w ws :
  joinWords (w :: ws) = match ws with [] => w | _ => w ++ 32%N :: joinWords ws end.
Proof. by destruct ws. Qed.

Lemma joinWords_nil ws :
  Forall (fun w : list codepoint => w ≠ []) ws → joinWords ws = [] → ws = [].
Proof.
  destruct 1 as [|w ws Hw _]; [done|]. rewrite joinWords_cons.
  destruct ws; [done|]. intros E. by apply app_eq_nil in E as [? _].
Qed.

(** *** Collapsing white space *)

Lemma startsClean_replaceSpaceRuns s : startsClean (replaceSpaceRuns true s).
Proof.
  induction s as [|c s IH]; [done|]. simpl. by destruct (is_space c) eqn:E.
Qed.

Lemma replaceSpaceRuns_no_newline in_run s :
  Forall (fun c => c ≠ 10%N) (replaceSpaceRuns in_run s).
Proof.
  revert in_run. induction s as [|c s IH]; intros in_run; simpl; [constructor|].
  destruct (is_space c) eqn:E.
  - destruct in_run; [apply IH|]. constructor; [done|apply IH].
  - constructor; [|apply IH]. intros ->. done.
Qed.

Lemma replaceNewlineRuns_id in_run s :
  Forall (fun c => c ≠ 10%N) s → replaceNewlineRuns in_run s = s.
Proof.
  intros H. revert in_run. induction H as [|c s Hc _ IH]; intros in_run; [done|].
  simpl. apply N.eqb_neq in Hc. rewrite Hc. by rewrite IH.
Qed.

Lemma wordStarts_replaceSpaceRuns in_word in_run s :
  (in_run = true → in_word = false) →
  wordStarts in_word (replaceSpaceRuns in_run s) = wordStarts in_word s.
Proof.
  revert in_word in_run. induction s as [|c s IH]; intros in_word in_run H; [done|].
  simpl. destruct (is_space c) eqn:E.
  - destruct in_run.
    + rewrite (H eq_refl). by apply IH.
    + simpl. by apply IH.
  - simpl. rewrite E. by rewrite IH.
Qed.

Lemma trimEnd_app x y :
  trimEnd (x ++ y) = match trimEnd y with [] => trimEnd x | t => x ++ t end.
Proof.
  induction x as [|c x IH]; simpl app.
  - by destruct (trimEnd y).
  - rewrite !trimEnd_cons, IH. destruct (trimEnd y) as [|a t]; [done|].
    simpl. destruct (x ++ a :: t) eqn:E; [|done]. by apply app_eq_nil in E as [_ ?].
Qed.

Lemma trimEnd_rev_word a cur :
  is_space a = false → trimEnd (rev (a :: cur)) = rev (a :: cur).
Proof. intros Ha. simpl. rewrite trimEnd_app. simpl. by rewrite Ha. Qed.

(** The collapsed text without the white space at its end is the words
    joined by single spaces: after a word in progress, and after white
    space. *)
Lemma trimEnd_replaceSpaceRuns s :
  (∀ a cur, Forall (fun c => is_space c = false) (a :: cur) →
     trimEnd (rev (a :: cur) ++ replaceSpaceRuns false s)
     = joinWords (wordsFrom (a :: cur) s)) ∧
  trimEnd (replaceSpaceRuns true s) = joinWords (wordsFrom [] s).
Proof.
  induction s as [|c s [IHm IHs]].
  - split; [|done]. intros a cur Hc. rewrite app_nil_r.
    apply trimEnd_rev_word. by apply Forall_cons in Hc as [? _].
  - cbn [replaceSpaceRuns wordsFrom]. destruct (is_space c) eqn:Ec.
    + split; [|done]. intros a cur Hc.
      rewrite trimEnd_app, trimEnd_cons, IHs, joinWords_cons.
      pose proof (wordsFrom_clean [] s ltac:(constructor)) as Hws.
      destruct (wordsFrom [] s) as [|w ws] eqn:E.
      * simpl. apply trimEnd_rev_word. by apply Forall_cons in Hc as [? _].
      * destruct (joinWords (w :: ws)) eqn:Ej; [|done].
        apply joinWords_nil in Ej; [done|].
        eapply Forall_impl; [exact Hws|]. by intros ? [? _].
    + split.
      * intros a cur Hc.
        replace (rev (a :: cur) ++ c :: replaceSpaceRuns false s)
          with (rev (c :: a :: cur) ++ replaceSpaceRuns false s)
          by (simpl; by rewrite <- !app_assoc).
        apply IHm. by constructor.
      * apply (IHm c []). by repeat constructor.
Qed.

Lemma cleanUpArticle_eq s : cleanUpArticle s = joinWords (words s).
Proof.
  unfold cleanUpArticle.
  rewrite (replaceNewlineRuns_id _ _ (replaceSpaceRuns_no_newline false s)).
  rewrite trim_eq, words_wordsFrom.
  destruct (trimEnd_replaceSpaceRuns (match s with [] => [] | _ :: s' => s' end))
    as [Hm Hs].
  destruct s as [|c s]; [done|]. cbn [replaceSpaceRuns wordsFrom].
  destruct (is_space c) eqn:Ec.
  - simpl trimStart.
    rewrite (trimStart_clean _ (startsClean_replaceSpaceRuns s)). apply Hs.
  - simpl trimStart. rewrite Ec. apply (Hm c []). by repeat constructor.
Qed.

(** The words of words joined by single spaces are those words. *)
Lemma wordsFrom_app w cur rest :
  Forall (fun c => is_space c = false) w →
  wordsFrom cur (w ++ rest) = wordsFrom (rev w ++ cur) rest.
Proof.
  revert cur. induction w as [|c w IH]; intros cur Hw; [done|].
  apply Forall_cons in Hw as [Hc Hw]. simpl. rewrite Hc, IH by done.
  by rewrite <- app_assoc.
Qed.

Lemma wordsFrom_joinWords ws :
  Forall (fun w => w ≠ [] ∧ Forall (fun c => is_space c = false) w) ws →
  wordsFrom [] (joinWords ws) = ws.
Proof.
  induction 1 as [|w ws [Hne Hw] Hws IH]; [done|].
  rewrite joinWords_cons. destruct ws as [|w' ws'].
  - rewrite <- (app_nil_r w) at 1. rewrite wordsFrom_app by done.
    rewrite app_nil_r. simpl. destruct (rev w) eqn:E.
    + destruct Hne. by rewrite <- (rev_involutive w), E.
    + by rewrite <- E, rev_involutive.
  - rewrite wordsFrom_app by done. rewrite app_nil_r.
    cbn [wordsFrom]. change (is_space 32%N) with true. cbv iota.
    destruct (rev w) eqn:E.
    + destruct Hne. by rewrite <- (rev_involutive w), E.
    + rewrite <- E, rev_involutive. by rewrite IH.
Qed.

(** *** Trimming and filtering keep what is there *)

Lemma elem_of_trimStart c s : c ∈ trimStart s → c ∈ s.
Proof.
  induction s as [|a s IH]; [done|]. simpl. destruct (is_space a); [|done].
  intros H. by apply list_elem_of_further, IH.
Qed.

Lemma elem_of_trimEnd c s : c ∈ trimEnd s → c ∈ s.
Proof.
  induction s as [|a s IH]; [done|]. rewrite trimEnd_cons.
  destruct (trimEnd s) as [|b t].
  - destruct (is_space a); [by intros ?%not_elem_of_nil|].
    intros ->%list_elem_of_singleton. apply list_elem_of_here.
  - intros [->|H]%elem_of_cons; [apply list_elem_of_here|].
    by apply list_elem_of_further, IH.
Qed.

Lemma elem_of_trim c s : c ∈ trim s → c ∈ s.
Proof. rewrite trim_eq. by intros ?%elem_of_trimEnd%elem_of_trimStart. Qed.

Lemma replaceSpaceRuns_spaces in_run s :
  Forall (fun c => is_space c = true → c = 32%N) (replaceSpaceRuns in_run s).
Proof.
  revert in_run. induction s as [|c s IH]; intros in_run; simpl; [constructor|].
  destruct (is_space c) eqn:E.
  - destruct in_run; [apply IH|]. constructor; [done|apply IH].
  - constructor; [|apply IH]. congruence.
Qed.

Lemma wordStarts_false_true s :
  (wordStarts false s ≤ 1 + wordStarts true s)%nat.
Proof. destruct s as [|c s]; simpl; [lia|]. destruct (is_space c); lia. Qed.

(** Removing code points that are not white space does not make words. *)
Lemma wordStarts_filter (keep : codepoint → bool) in_word s :
  (∀ c, is_space c = true → keep c = true) →
  (wordStarts in_word (filter (fun c => keep c) s) ≤ wordStarts in_word s)%nat.
Proof.
  intros Hkeep. revert in_word. induction s as [|c s IH]; intros in_word; [done|].
  rewrite filter_cons. destruct (decide (keep c)) as [Hk|Hk]; simpl.
  - destruct (is_space c).
    + apply IH.
    + specialize (IH true). lia.
  - destruct (is_space c) eqn:Ec.
    + destruct Hk. by rewrite Hkeep.
    + destruct in_word.
      * apply IH.
      * pose proof (IH false). pose proof (wordStarts_false_true s). lia.
Qed.

End TextFacts.

(** ** Properties of the content service *)
Module ContentServiceProps.
Import Contents ContentService Spec Facts TextFacts.

(** X20: the clean-up of a web article yields the words of the text joined
    by single spaces.  Hence it keeps the words and their number, cleaning
    twice changes nothing, and its second replacement, of runs of line
    feeds, never finds one. *)
Theorem cleanUpArticle_joins_words (s : list codepoint) :
  cleanUpArticle s = joinWords (words s) ∧
  words (cleanUpArticle s) = words s ∧
  countWords (cleanUpArticle s) = countWords s ∧
  cleanUpArticle (cleanUpArticle s) = cleanUpArticle s ∧
  replaceNewlineRuns false (replaceSpaceRuns false s) = replaceSpaceRuns false s.
Proof.
  assert (Hw : words (cleanUpArticle s) = words s).
  { rewrite cleanUpArticle_eq, !words_wordsFrom.
    apply wordsFrom_joinWords, wordsFrom_clean. constructor. }
  split_and!; [apply cleanUpArticle_eq | done | | |].
  - unfold countWords. fold (words (cleanUpArticle s)) (words s). by rewrite Hw.
  - by rewrite (cleanUpArticle_eq (cleanUpArticle s)), Hw, cleanUpArticle_eq.
  - apply replaceNewlineRuns_id, replaceSpaceRuns_no_newline.
Qed.

Lemma isValidFileType_spec mimeType :
  isValidFileType mimeType = true ↔
  mimeType = "application/pdf" ∨
  mimeType = "application/vnd.openxmlformats-officedocument.wordprocessingml.document" ∨
  mimeType = "application/msword" ∨
  mimeType = "text/plain" ∨
  mimeType = "text/markdown".
Proof.
  unfold isValidFileType. cbv zeta.
  rewrite bool_decide_eq_true, !elem_of_cons, elem_of_nil. tauto.
Qed.

(** X21: [processFile] succeeds only for the MIME types that
    [isValidFileType] accepts, and for each of these it succeeds when the
    reader of the file does; for every other type, and when the reader
    throws, the error is [Failed to process file]. *)
Theorem processFile_valid_types pdf extractRawText readFileSync filePath mimeType :
  ((∃ r, processFile pdf extractRawText readFileSync filePath mimeType = inr r) →
   isValidFileType mimeType = true) ∧
  (isValidFileType mimeType = true →
   is_Some (pdf filePath) → is_Some (extractRawText filePath) →
   is_Some (readFileSync filePath) →
   ∃ r, processFile pdf extractRawText readFileSync filePath mimeType = inr r) ∧
  (∀ e, processFile pdf extractRawText readFileSync filePath mimeType = inl e →
        e = "Failed to process file").
Proof.
  rewrite isValidFileType_spec.
  unfold processFile, processPDF, processWordDocument, processTextFile.
  cbv zeta. split_and!.
  - intros [r Hr]. repeat case_decide; simplify_eq/=; tauto.
  - intros Hv [[[[t ti] au] n] Hp] [v Hx] [x Hr]. rewrite Hp, Hx, Hr. simpl.
    repeat case_decide; try by eexists. tauto.
  - intros e H. repeat case_decide;
      repeat match goal with
      | H : context [match ?x with _ => _ end] |- _ => destruct x; simpl in H
      end; by simplify_eq/=.
Qed.

Lemma processFile_valid_types_witness :
  ∃ r, processFile (fun _ => Some (text "x", None, None, 1))
         (fun _ => Some (text "y"))
         (fun _ => Some (text "  hello world ")) "notes.md" "text/markdown"
       = inr r.
Proof.
  apply (processFile_valid_types (fun _ => Some (text "x", None, None, 1))
           (fun _ => Some (text "y"))
           (fun _ => Some (text "  hello world ")) "notes.md" "text/markdown").
  - reflexivity.
  - by eexists.
  - by eexists.
  - by eexists.
Defined.

(** X22: the word count and the reading time that [processFile] puts into
    the metadata are those that the virtuals [wordCount] and [readingTime]
    give for the document that stores the returned text, although they are
    counted before the text is trimmed; and the returned text neither
    begins nor ends with white space. *)
Theorem processFile_metadata_matches_virtuals
    pdf extractRawText readFileSync filePath mimeType r :
  processFile pdf extractRawText readFileSync filePath mimeType = inr r →
  (∀ c : Content, content c = r_content r →
     md_wordCount (r_metadata r) = Some (wordCount c) ∧
     md_readingTime (r_metadata r) = Some (readingTime c)) ∧
  trim (r_content r) = r_content r.
Proof.
  unfold processFile. cbv zeta.
  destruct (if decide (mimeType = "application/pdf") then _ else _)
    as [[text0 metadata]|]; [|done].
  intros [= <-]. simpl. split; [|apply trim_idemp].
  intros c Hc. unfold readingTime, wordCount.
  fold (countWords (content c)). by rewrite Hc, countWords_trim.
Qed.

Lemma processFile_metadata_matches_virtuals_witness :
  md_wordCount (mkMetadata None None None (Some 2) (Some 1))
    = Some (wordCount (mkContent "u1" "notes.md" document "notes.md" (text "hello world"))) ∧
  md_readingTime (mkMetadata None None None (Some 2) (Some 1))
    = Some (readingTime (mkContent "u1" "notes.md" document "notes.md" (text "hello world"))).
Proof.
  apply (processFile_metadata_matches_virtuals (fun _ => None) (fun _ => None)
           (fun _ => Some (text "  hello world ")) "notes.md" "text/markdown"
           (mkResult (text "hello world")
              (mkMetadata None None None (Some 2) (Some 1)))).
  - vm_compute. reflexivity.
  - reflexivity.
Defined.

(** X23: what [cleanContent] returns consists of word characters, single
    characters of the punctuation that the method lists and spaces: no tab,
    no line feed, no hyphen, no code point beyond ASCII; it neither begins
    nor ends with white space; and it has at most as many words as the
    input. *)
Theorem cleanContent_alphabet (s : list codepoint) :
  Forall (fun c => is_word_char c = true ∨ c = 32%N ∨ is_kept_punctuation c = true)
    (cleanContent s) ∧
  Forall (fun c => c ≠ 9%N ∧ c ≠ 10%N ∧ c ≠ 45%N ∧ (c < 127)%N) (cleanContent s) ∧
  trim (cleanContent s) = cleanContent s ∧
  countWords (cleanContent s) ≤ countWords s.
Proof.
  assert (Ha : Forall (fun c => is_word_char c = true ∨ c = 32%N
                                ∨ is_kept_punctuation c = true) (cleanContent s)).
  { apply Forall_forall. intros c Hc. unfold cleanContent in Hc.
    apply elem_of_trim, list_elem_of_filter in Hc as [Hk Hc].
    rewrite (replaceNewlineRuns_id _ _ (replaceSpaceRuns_no_newline false s)) in Hc.
    pose proof (replaceSpaceRuns_spaces false s) as Hsp.
    eapply Forall_forall in Hsp; [|exact Hc].
    destruct (is_word_char c) eqn:E1; [by left|].
    destruct (is_space c) eqn:E2; [right; left; by apply Hsp|].
    destruct (c =? 10)%N eqn:E3.
    { apply N.eqb_eq in E3 as ->. done. }
    destruct (is_kept_punctuation c) eqn:E4; [by right; right|].
    simpl in Hk. done. }
  split_and!; [done| |apply trim_idemp|].
  - eapply Forall_impl; [exact Ha|]. intros c [Hw|[->|Hp]].
    + unfold is_word_char in Hw.
      rewrite !orb_true_iff, !andb_true_iff, !N.leb_le, !N.eqb_eq in Hw. lia.
    + lia.
    + unfold is_kept_punctuation in Hp. apply bool_decide_eq_true in Hp.
      repeat (apply elem_of_cons in Hp as [->|Hp]; [lia|]).
      by apply not_elem_of_nil in Hp.
  - unfold cleanContent.
    rewrite (replaceNewlineRuns_id _ _ (replaceSpaceRuns_no_newline false s)).
    rewrite countWords_trim, !countWords_wordStarts.
    apply inj_le. etransitivity.
    + apply (wordStarts_filter
               (fun c => is_word_char c || is_space c || (c =? 10)%N
                         || is_kept_punctuation c)).
      intros c ->. by rewrite orb_true_r.
    + by rewrite wordStarts_replaceSpaceRuns.
Qed.

End ContentServiceProps.

(** ** Properties of the extraction of concepts *)
Module ConceptProps.
Import Contents ContentService Spec Facts.

(** *** The stable sort *)

Lemma insertOn_Permutation {A} (key : A → Z) x l : insertOn key x l ≡ₚ x :: l.
Proof.
  induction l as [|y l IH]; [done|]. simpl. case_decide; [|done].
  rewrite IH. apply Permutation_swap.
Qed.

Lemma sortOn_Permutation {A} (key : A → Z) l : sortOn key l ≡ₚ l.
Proof.
  induction l as [|x l IH]; [done|]. simpl. by rewrite insertOn_Permutation, IH.
Qed.

Lemma insertOn_sorted {A} (key : A → Z) x l :
  StronglySorted (fun a b => key a ≤ key b) l →
  StronglySorted (fun a b => key a ≤ key b) (insertOn key x l).
Proof.
  induction 1 as [|y l Hs IH Hy]; simpl; [by repeat constructor|].
  case_decide as Hlt.
  - constructor; [done|]. rewrite insertOn_Permutation. constructor; [lia|done].
  - constructor; [by constructor|]. constructor; [lia|].
    eapply Forall_impl; [exact Hy|]. simpl. intros; lia.
Qed.

Lemma sortOn_sorted {A} (key : A → Z) l :
  StronglySorted (fun a b => key a ≤ key b) (sortOn key l).
Proof.
  induction l as [|x l IH]; [constructor|]. by apply insertOn_sorted.
Qed.

Lemma StronglySorted_lookup {A} (R : relation A) l i j x y :
  StronglySorted R l → (i < j)%nat → l !! i = Some x → l !! j = Some y → R x y.
Proof.
  intros Hs. revert i j. induction Hs as [|a l Hs IH Ha]; intros i j Hij Hi Hj; [done|].
  destruct j as [|j]; [lia|]. destruct i as [|i]; simpl in *.
  - injection Hi as ->. eapply Forall_forall in Ha; [done|].
    apply list_elem_of_lookup. by exists j.
  - apply (IH i j); [lia|done..].
Qed.

(** *** The dictionary of frequencies *)

Lemma get_increment w o k :
  get (increment w o) k = get o k + (if decide (k = w) then 1 else 0).
Proof.
  induction o as [|[k' n] o IH]; simpl.
  - repeat case_decide; simplify_eq; lia.
  - repeat case_decide; simplify_eq/=; repeat case_decide; simplify_eq; try lia.
Qed.

Lemma keys_increment w o k : k ∈ (increment w o).*1 ↔ k = w ∨ k ∈ o.*1.
Proof.
  induction o as [|[k' n] o IH]; simpl.
  - rewrite list_elem_of_singleton. set_unfold. tauto.
  - case_decide; simplify_eq/=; rewrite !elem_of_cons; [tauto|]. rewrite IH. tauto.
Qed.

Lemma NoDup_increment w o : NoDup o.*1 → NoDup (increment w o).*1.
Proof.
  induction o as [|[k' n] o IH]; simpl.
  - intros _. apply NoDup_singleton.
  - intros [Hk Hnd]%NoDup_cons. case_decide; simplify_eq/=.
    + by apply NoDup_cons.
    + apply NoDup_cons. split; [|by apply IH].
      rewrite keys_increment. intros [->|?]; done.
Qed.

Lemma get_elem_of o k n : NoDup o.*1 → (k, n) ∈ o → get o k = n.
Proof.
  induction o as [|[k' n'] o IH]; simpl; [by intros _ ?%not_elem_of_nil|].
  intros [Hk Hnd]%NoDup_cons [[= -> ->]|Hin]%elem_of_cons.
  - by rewrite decide_True.
  - rewrite decide_False; [by apply IH|]. intros ->. apply Hk.
    apply list_elem_of_fmap. by exists (k, n).
Qed.

Lemma wordFreq_spec ws o :
  NoDup o.*1 →
  let wordFreq := foldl (fun o word => increment word o) o ws in
  NoDup wordFreq.*1 ∧
  (∀ k, k ∈ wordFreq.*1 ↔ k ∈ o.*1 ∨ k ∈ ws) ∧
  (∀ k, get wordFreq k = get o k + occurrences k ws).
Proof.
  cbv zeta. revert o. induction ws as [|w ws IH]; intros o Hnd; simpl.
  - split_and!; [done| |].
    + intros k. rewrite elem_of_nil. tauto.
    + intros k. unfold occurrences. simpl. lia.
  - destruct (IH (increment w o) (NoDup_increment w o Hnd)) as (H1 & H2 & H3).
    split_and!; [done| |].
    + intros k. rewrite H2, keys_increment, elem_of_cons. tauto.
    + intros k. rewrite H3, get_increment. unfold occurrences.
      rewrite filter_cons. repeat case_decide; simplify_eq; simpl length; lia.
Qed.

Lemma entries_Permutation o : entries o ≡ₚ o.
Proof. unfold entries. rewrite sortOn_Permutation. apply filter_app_complement. Qed.

(** *** The words that are counted *)

Lemma wordsFrom_elem cur s w c :
  w ∈ wordsFrom cur s → c ∈ w → c ∈ cur ∨ c ∈ s.
Proof.
  assert (Hrev : ∀ l : list codepoint, c ∈ rev l → c ∈ l).
  { intros l H. apply list_elem_of_In. apply in_rev. by apply list_elem_of_In. }
  revert cur. induction s as [|a s IH]; intros cur; cbn [wordsFrom].
  - destruct cur; [by intros ?%not_elem_of_nil|].
    intros ->%list_elem_of_singleton Hc. left. by apply Hrev.
  - destruct (is_space a).
    + destruct cur.
      * intros Hw Hc. destruct (IH [] Hw Hc) as [?%not_elem_of_nil|?]; [done|].
        right. by apply list_elem_of_further.
      * intros [->|Hw]%elem_of_cons Hc; [left; by apply Hrev|].
        destruct (IH [] Hw Hc) as [?%not_elem_of_nil|?]; [done|].
        right. by apply list_elem_of_further.
    + intros Hw Hc. destruct (IH _ Hw Hc) as [[->|?]%elem_of_cons|?].
      * right. apply list_elem_of_here.
      * by left.
      * right. by apply list_elem_of_further.
Qed.

Lemma conceptWords_shape toLowerCase content w :
  w ∈ conceptWords toLowerCase content →
  (3 < length w)%nat ∧ Forall (fun c => is_word_char c = true) w.
Proof.
  unfold conceptWords. intros [Hlen Hw]%list_elem_of_filter. split; [done|].
  assert (Hw' : w ∈ words (filter (fun c => is_word_char c || is_space c)
                             (toLowerCase content))).
  { unfold words. apply list_elem_of_filter. split; [lia|done]. }
  rewrite TextFacts.words_wordsFrom in Hw'.
  pose proof (TextFacts.wordsFrom_clean []
                (filter (fun c => is_word_char c || is_space c) (toLowerCase content))
                ltac:(constructor)) as Hclean.
  eapply Forall_forall in Hclean as [_ Hns]; [|exact Hw'].
  apply Forall_forall. intros c Hc.
  eapply Forall_forall in Hns; [|exact Hc].
  destruct (wordsFrom_elem _ _ _ _ Hw' Hc) as [?%not_elem_of_nil|Hin]; [done|].
  apply list_elem_of_filter in Hin as [Hk _].
  rewrite Hns, orb_false_r in Hk. by apply Is_true_true.
Qed.

Lemma occurrences_stored (w : list codepoint) ws :
  w ≠ text "__proto__" →
  occurrences w (filter (fun word => word ≠ text "__proto__") ws) = occurrences w ws.
Proof.
  intros Hw. unfold occurrences. rewrite list_filter_filter_l; [done|].
  by intros x ->.
Qed.

(** X24: [extractConcepts] returns at most 10 words, no word twice; each
    is one of the words of the lower-cased text that are longer than 3 and
    consist of word characters; they come in the order of how often they
    occur, the most frequent first; and a word that is left out occurs at
    most as often as each word returned, which are then 10.  The order is
    not determined when a word other than [__proto__] is the name of a
    property of [Object.prototype]. *)
Theorem extractConcepts_top_ten toLowerCase content :
  let ws := conceptWords toLowerCase content in
  (extractConcepts toLowerCase content = None ↔
   ∃ w, w ∈ ws ∧ w ∈ prototypeKeys ∧ w ≠ text "__proto__") ∧
  ∀ concepts, extractConcepts toLowerCase content = Some concepts →
    (length concepts ≤ 10)%nat ∧
    NoDup concepts ∧
    (∀ w, w ∈ concepts →
       w ∈ ws ∧ (3 < length w)%nat ∧ Forall (fun c => is_word_char c = true) w) ∧
    (∀ i j wi wj, (i < j)%nat → concepts !! i = Some wi → concepts !! j = Some wj →
       occurrences wj ws ≤ occurrences wi ws) ∧
    (∀ w, w ∈ ws → w ≠ text "__proto__" → w ∉ concepts →
       length concepts = 10%nat ∧
       ∀ c, c ∈ concepts → occurrences w ws ≤ occurrences c ws).
Proof.
  cbv zeta. unfold extractConcepts. cbv zeta.
  set (ws := conceptWords toLowerCase content).
  set (stored := filter (fun word => word ≠ text "__proto__") ws).
  set (wordFreq := foldl (fun o word => increment word o) [] stored).
  set (sorted := sortOn (fun e : list codepoint * Z => - e.2) (entries wordFreq)).
  destruct (wordFreq_spec stored [] (NoDup_nil_2 : NoDup ([] : Dictionary).*1))
    as (Hnd & Hkeys & Hget). fold wordFreq in Hnd, Hkeys, Hget.
  assert (HP : sorted ≡ₚ wordFreq).
  { unfold sorted. by rewrite sortOn_Permutation, entries_Permutation. }
  assert (Hs : StronglySorted (fun a b : list codepoint * Z => - a.2 ≤ - b.2) sorted)
    by apply sortOn_sorted.
  assert (Hentry : ∀ w n, (w, n) ∈ sorted →
            w ∈ ws ∧ w ≠ text "__proto__" ∧ n = occurrences w ws).
  { intros w n Hin. rewrite HP in Hin.
    assert (Hw : w ∈ stored).
    { destruct (Hkeys w) as [Hk _]. destruct Hk as [?%not_elem_of_nil|?]; [|done|done].
      apply list_elem_of_fmap. by exists (w, n). }
    apply list_elem_of_filter in Hw as [Hp Hw]. split_and!; [done..|].
    rewrite <- (get_elem_of _ _ _ Hnd Hin), Hget.
    change (get [] w) with 0. rewrite Z.add_0_l. unfold stored.
    by rewrite occurrences_stored. }
  assert (Hstored : ∀ w, w ∈ ws → w ≠ text "__proto__" → ∃ n, (w, n) ∈ sorted).
  { intros w Hw Hp.
    assert (Hk : w ∈ wordFreq.*1).
    { apply Hkeys. right. by apply list_elem_of_filter. }
    apply list_elem_of_fmap in Hk as ([w' n] & -> & Hin). exists n. by rewrite HP. }
  case_decide as Hex.
  - split; [|done]. split; [|done]. intros _.
    apply Exists_exists in Hex as (w & [Hp Hw]%list_elem_of_filter & Hk).
    by exists w.
  - split.
    { split; [done|]. intros (w & Hw & Hk & Hp). destruct Hex.
      apply Exists_exists. exists w. split; [|done]. by apply list_elem_of_filter. }
    intros concepts [= <-]. split_and!.
    + rewrite length_fmap, length_take. lia.
    + rewrite fmap_take. apply (sublist_NoDup _ sorted.*1); [by rewrite HP|].
      apply sublist_take.
    + intros w ([w' n] & -> & Hin)%list_elem_of_fmap. simpl.
      apply elem_of_take in Hin as (i & Hi & _).
      assert (Hin : (w', n) ∈ sorted) by (apply list_elem_of_lookup; by exists i).
      destruct (Hentry _ _ Hin) as (Hw & _ & _). split; [done|].
      by apply (conceptWords_shape toLowerCase content).
    + intros i j wi wj Hij Hi Hj.
      rewrite list_lookup_fmap in Hi, Hj.
      destruct (take 10 sorted !! i) as [[wi' ni]|] eqn:Ei; [|done].
      destruct (take 10 sorted !! j) as [[wj' nj]|] eqn:Ej; [|done].
      simpl in Hi, Hj. injection Hi as <-. injection Hj as <-.
      apply lookup_take_Some in Ei as [Ei _]. apply lookup_take_Some in Ej as [Ej _].
      pose proof (StronglySorted_lookup _ _ _ _ _ _ Hs Hij Ei Ej) as Hle. simpl in Hle.
      assert (Hini : (wi', ni) ∈ sorted) by (apply list_elem_of_lookup; by exists i).
      assert (Hinj : (wj', nj) ∈ sorted) by (apply list_elem_of_lookup; by exists j).
      destruct (Hentry _ _ Hini) as (_ & _ & ->).
      destruct (Hentry _ _ Hinj) as (_ & _ & ->). lia.
    + intros w Hw Hp Hout. destruct (Hstored w Hw Hp) as [n Hin].
      rewrite <- (take_drop 10 sorted) in Hin, Hs.
      apply elem_of_app in Hin as [Hin|Hin].
      { destruct Hout. apply list_elem_of_fmap. by exists (w, n). }
      split.
      * rewrite length_fmap, length_take.
        assert (drop 10 sorted ≠ []) by (intros E; rewrite E in Hin; by apply not_elem_of_nil in Hin).
        destruct (decide (length sorted ≤ 10)%nat) as [Hl|Hl]; [|lia].
        by rewrite drop_ge in H.
      * intros c ([c' m] & -> & Hc)%list_elem_of_fmap. simpl.
        pose proof (StronglySorted_app_1_elem_of _ _ _ _ _ Hs Hc Hin) as Hle.
        simpl in Hle.
        assert (Hc' : (c', m) ∈ sorted).
        { rewrite <- (take_drop 10 sorted). apply elem_of_app. by left. }
        assert (Hw' : (w, n) ∈ sorted).
        { rewrite <- (take_drop 10 sorted). apply elem_of_app. by right. }
        destruct (Hentry _ _ Hc') as (_ & _ & ->).
        destruct (Hentry _ _ Hw') as (_ & _ & ->). lia.
Qed.

Lemma extractConcepts_top_ten_witness :
  (length [text "proofs"; text "programs"; text "rocq"; text "about"] ≤ 10)%nat ∧
  NoDup [text "proofs"; text "programs"; text "rocq"; text "about"].
Proof.
  destruct (extractConcepts_top_ten Samples.asciiLower
              (text "Rocq proofs: Proofs about PROGRAMS, programs and proofs")) as [_ H].
  destruct (H [text "proofs"; text "programs"; text "rocq"; text "about"])
    as (H1 & H2 & _).
  - vm_compute. reflexivity.
  - split; [exact H1|exact H2].
Defined.

End ConceptProps.
